(** * swagger-mcp-server: template engine, document cache, model projections
      and template manager, embedded from the TypeScript sources.

    Strings are sequences of code units below 256; numbers are the
    integer-valued ones; a JavaScript object used as a record is a finite map
    of its own properties, and reads that miss the own properties fall through
    to the members every object inherits from the runtime. *)

From Stdlib Require Import String Ascii List ZArith QArith Lia Bool DecimalString.
From stdpp Require Import gmap strings list.

Open Scope string_scope.
Set Warnings "-register-all".

(** ** String helpers shared by every component *)

Module Str.

Fixpoint drop (n : nat) (s : string) : string :=
  match n, s with
  | O, _ => s
  | S _, EmptyString => EmptyString
  | S k, String _ r => drop k r
  end.

Fixpoint take (n : nat) (s : string) : string :=
  match n, s with
  | O, _ => EmptyString
  | S _, EmptyString => EmptyString
  | S k, String c r => String c (take k r)
  end.

(** [indexOf]: position of the first occurrence of [p] in [s]. *)
Fixpoint find_sub (p s : string) : option nat :=
  if String.prefix p s then Some O
  else match s with
       | EmptyString => None
       | String _ r => option_map S (find_sub p r)
       end.

Definition includes (s p : string) : bool :=
  match find_sub p s with Some _ => true | None => false end.

(** [lastIndexOf] for a one-character pattern. *)
Fixpoint last_index_of (c : ascii) (s : string) : option nat :=
  match s with
  | EmptyString => None
  | String a r =>
      match last_index_of c r with
      | Some k => Some (S k)
      | None => if Ascii.eqb a c then Some O else None
      end
  end.

(** [split] on a one-character separator. *)
Fixpoint split (sep : ascii) (s : string) : list string :=
  match s with
  | EmptyString => [EmptyString]
  | String a r =>
      if Ascii.eqb a sep then EmptyString :: split sep r
      else match split sep r with
           | h :: t => String a h :: t
           | [] => [String a EmptyString]
           end
  end.

(** [replace] with a string pattern: the first occurrence only. *)
Definition replace_first (pat rep s : string) : string :=
  match find_sub pat s with
  | Some k => take k s ++ rep ++ drop (k + String.length pat) s
  | None => s
  end.

(** White space removed by [String.prototype.trim], among code units < 256. *)
Definition is_ws (c : ascii) : bool :=
  let n := nat_of_ascii c in
  ((9 <=? n)%nat && (n <=? 13)%nat) || (n =? 32)%nat || (n =? 160)%nat.

Fixpoint trim_start (s : string) : string :=
  match s with
  | EmptyString => EmptyString
  | String c r => if is_ws c then trim_start r else s
  end.

Fixpoint trim_end (s : string) : string :=
  match s with
  | EmptyString => EmptyString
  | String c r =>
      match trim_end r with
      | EmptyString => if is_ws c then EmptyString else String c EmptyString
      | r' => String c r'
      end
  end.

Definition trim (s : string) : string := trim_end (trim_start s).

Definition is_empty (s : string) : bool :=
  match s with EmptyString => true | _ => false end.

Fixpoint concat (l : list string) : string :=
  match l with
  | [] => EmptyString
  | s :: r => s ++ concat r
  end.

(** [Array.prototype.join]. *)
Fixpoint join (sep : string) (l : list string) : string :=
  match l with
  | [] => EmptyString
  | [s] => s
  | s :: r => s ++ sep ++ join sep r
  end.

Definition of_Z (z : Z) : string := NilZero.string_of_int (Z.to_int z).
Definition of_nat (n : nat) : string := of_Z (Z.of_nat n).

Fixpoint forallb (p : ascii -> bool) (s : string) : bool :=
  match s with
  | EmptyString => true
  | String c r => p c && forallb p r
  end.

End Str.

(** ** JavaScript values

    The data a render context, a raw document or a cache entry can hold. *)

Inductive value : Type :=
| VUndefined
| VNull
| VBool (b : bool)
| VNum (n : Z)
| VStr (s : string)
| VArr (xs : list value)
| VObj (fields : list (string * value))
| VFun (src : string).

Module Js.

(** Own properties of an object literal: first binding of the key. *)
Fixpoint assoc (k : string) (fs : list (string * value)) : option value :=
  match fs with
  | [] => None
  | (k', v) :: r => if String.eqb k k' then Some v else assoc k r
  end.

(** [o[k] = v]: an existing key keeps its place, a new key goes last. *)
Fixpoint set_prop (k : string) (v : value) (fs : list (string * value))
  : list (string * value) :=
  match fs with
  | [] => [(k, v)]
  | (k', v') :: r =>
      if String.eqb k k' then (k, v) :: r else (k', v') :: set_prop k v r
  end.

(** [Object.assign(target, source)] for the own properties of [source]. *)
Definition assign (target source : list (string * value))
  : list (string * value) :=
  fold_left (fun acc kv => set_prop (fst kv) (snd kv) acc) source target.

(** The index an array-index property name denotes. *)
Definition index_of_key (len : nat) (k : string) : option nat :=
  List.find (fun i => String.eqb k (Str.of_nat i)) (seq 0 len).

Definition char_at (s : string) (i : nat) : value :=
  match String.get i s with
  | Some c => VStr (String c EmptyString)
  | None => VUndefined
  end.

(** Own enumerable properties of an array, as [Object.assign] copies them. *)
Definition array_entries (xs : list value) : list (string * value) :=
  imap (fun i x => (Str.of_nat i, x)) xs.

(** The own property [k] of [v], when it has one. *)
Definition own_prop (v : value) (k : string) : option value :=
  match v with
  | VObj fs => assoc k fs
  | VArr xs =>
      if String.eqb k "length" then Some (VNum (Z.of_nat (List.length xs)))
      else option_map (fun i => nth i xs VUndefined)
             (index_of_key (List.length xs) k)
  | VStr s =>
      if String.eqb k "length" then Some (VNum (Z.of_nat (String.length s)))
      else option_map (char_at s) (index_of_key (String.length s) k)
  | _ => None
  end.

(** [v.k] for a name no prototype defines. *)
Definition get (v : value) (k : string) : value :=
  match own_prop v k with Some x => x | None => VUndefined end.

(** [Object.keys(v).length]. *)
Definition keys_count (v : value) : nat :=
  match v with
  | VObj fs => List.length fs
  | VArr xs => List.length xs
  | VStr s => String.length s
  | _ => O
  end.

(** What [Object.assign] copies from [item] when
    [typeof item === 'object' && item !== null]: the fields of an object,
    the indexed elements of an array; nothing otherwise. *)
Definition object_entries (item : value) : list (string * value) :=
  match item with
  | VObj fs => fs
  | VArr xs => array_entries xs
  | _ => []
  end.

(** [Array.isArray]. *)
Definition isArray (v : value) : bool :=
  match v with VArr _ => true | _ => false end.

(** [typeof v === 'object'] for a value that is neither null nor an array. *)
Definition is_plain_object (v : value) : bool :=
  match v with VObj _ => true | _ => false end.

(** [v === undefined || v === null]. *)
Definition is_nullish (v : value) : bool :=
  match v with VUndefined | VNull => true | _ => false end.

(** [!!v] *)
Definition to_boolean (v : value) : bool :=
  match v with
  | VUndefined | VNull => false
  | VBool b => b
  | VNum n => negb (Z.eqb n 0)
  | VStr s => negb (Str.is_empty s)
  | VArr _ | VObj _ | VFun _ => true
  end.

(** [String(v)] for plain data: an array joins its elements with commas,
    writing nothing for null and undefined ones. *)
Fixpoint to_string (v : value) : string :=
  match v with
  | VUndefined => "undefined"
  | VNull => "null"
  | VBool true => "true"
  | VBool false => "false"
  | VNum n => Str.of_Z n
  | VStr s => s
  | VArr xs =>
      Str.join ","
        (List.map (fun x => if is_nullish x then EmptyString else to_string x) xs)
  | VObj _ => "[object Object]"
  | VFun src => src
  end.

End Js.

(** ** Template engine (TemplateEngine)

    [render] and the four passes it chains.  Each pass is a global regular
    expression replacement; the expressions are interpreted by [scan], which
    walks the template once from left to right. *)

Module TemplateEngine.

Record TemplateEngineOptions := {
  preserveUnmatched : bool;
  tagStart : string;
  tagEnd : string;
  enableConditionals : bool;
  enableLoops : bool;
  enablePartials : bool
}.

(** The constructor's defaults. *)
Definition default_options : TemplateEngineOptions := {|
  preserveUnmatched := false;
  tagStart := "{";
  tagEnd := "}";
  enableConditionals := true;
  enableLoops := true;
  enablePartials := true
|}.

(** [tagStart || '{'] and [tagEnd || '}']. *)
Definition start_of (o : TemplateEngineOptions) : string :=
  if Str.is_empty (tagStart o) then "{" else tagStart o.
Definition end_of (o : TemplateEngineOptions) : string :=
  if Str.is_empty (tagEnd o) then "}" else tagEnd o.

(** *** The regular expressions *)

(** The class [[^\{\}]]. *)
Definition not_brace (c : ascii) : bool :=
  negb (Ascii.eqb c "{" || Ascii.eqb c "}").

(** The class [[^#\/\?\>\{\}]]. *)
Definition var_char (c : ascii) : bool :=
  negb (Ascii.eqb c "#" || Ascii.eqb c "/" || Ascii.eqb c "?"
        || Ascii.eqb c ">" || Ascii.eqb c "{" || Ascii.eqb c "}").

(** A lazy group [(cls+?)] followed by the literal [en] and then by whatever
    [k] accepts: the shortest path is tried first, and a longer one only when
    the rest of the expression fails after the shorter. *)
Fixpoint lazy_path {R : Type} (cls : ascii -> bool) (en : string)
    (k : string -> string -> option R) (acc rest : string) : option R :=
  match rest with
  | EmptyString => None
  | String c r =>
      if cls c then
        let path := acc ++ String c EmptyString in
        match (if String.prefix en r
               then k path (Str.drop (String.length en) r) else None) with
        | Some res => Some res
        | None => lazy_path cls en k path r
        end
      else None
  end.

(** What a match captures: its length, group 1 and group 2. *)
Definition capture : Type := nat * string * string.

(** [START sigil ([^{}]+?) END ([\s\S]*?) START / \1 END] anchored at the
    head of [s]; [sigil] is [?] for conditionals and [#] for loops. *)
Definition block_match (st en : string) (sigil : ascii) (s : string)
  : option capture :=
  let opener := st ++ String sigil EmptyString in
  if String.prefix opener s then
    lazy_path not_brace en
      (fun path body =>
         let closer := st ++ "/" ++ path ++ en in
         match Str.find_sub closer body with
         | Some k =>
             Some (String.length opener + String.length path + String.length en
                   + k + String.length closer, path, Str.take k body)%nat
         | None => None
         end)
      EmptyString (Str.drop (String.length opener) s)
  else None.

(** [START > ([^{}]+?) END] anchored at the head of [s]. *)
Definition partial_match (st en : string) (s : string) : option capture :=
  let opener := st ++ ">" in
  if String.prefix opener s then
    lazy_path not_brace en
      (fun path _ =>
         Some (String.length opener + String.length path + String.length en,
               path, EmptyString)%nat)
      EmptyString (Str.drop (String.length opener) s)
  else None.

(** [START ([^#/?>{}]+?) END] anchored at the head of [s]. *)
Definition var_match (st en : string) (s : string) : option capture :=
  if String.prefix st s then
    lazy_path var_char en
      (fun path _ =>
         Some (String.length st + String.length path + String.length en,
               path, EmptyString)%nat)
      EmptyString (Str.drop (String.length st) s)
  else None.

(** The pieces a global replace cuts a template into: the characters no match
    covers, and the matches with their groups. *)
Inductive piece : Type :=
| Lit (c : ascii)
| Hit (whole path content : string).

(** Matches are searched from left to right and do not overlap: after a match
    the search resumes behind it ([skip] counts the characters still covered
    by the last match). *)
Fixpoint scan (m : string -> option capture) (s : string) (skip : nat)
  : list piece :=
  match s with
  | EmptyString => []
  | String c r =>
      match skip with
      | S k => scan m r k
      | O =>
          match m s with
          | Some (len, path, content) =>
              Hit (Str.take len s) path content :: scan m r (len - 1)
          | None => Lit c :: scan m r 0
          end
      end
  end.

(** [template.replace(regex, callback)] for a callback that always returns. *)
Fixpoint subst_pieces (cb : string -> string -> string -> string)
    (ps : list piece) : string :=
  match ps with
  | [] => EmptyString
  | Lit c :: r => String c (subst_pieces cb r)
  | Hit whole path content :: r => cb whole path content ++ subst_pieces cb r
  end.

(** The same for a callback that recurses into the engine and may exhaust
    the depth it is given. *)
Fixpoint replace_pieces (cb : string -> string -> string -> option string)
    (ps : list piece) : option string :=
  match ps with
  | [] => Some EmptyString
  | Lit c :: r => option_map (String c) (replace_pieces cb r)
  | Hit whole path content :: r =>
      match cb whole path content with
      | Some out =>
          option_map (fun rest => out ++ rest) (replace_pieces cb r)
      | None => None
      end
  end.

Definition replace_all (m : string -> option capture)
    (cb : string -> string -> string -> option string) (template : string)
  : option string :=
  replace_pieces cb (scan m template 0).

Section Engine.

(** What a property read yields when the receiver has no own property of that
    name: the member inherited from the runtime's prototypes, or undefined. *)
Variable inherited : value -> string -> value.

(** [value[part]]. *)
Definition get_prop (v : value) (k : string) : value :=
  match Js.own_prop v k with
  | Some x => x
  | None => inherited v k
  end.

Fixpoint walk (parts : list string) (v : value) : value :=
  match parts with
  | [] => v
  | part :: r => if Js.is_nullish v then VUndefined else walk r (get_prop v part)
  end.

Definition getNestedValue (obj : value) (path : string) : value :=
  if Str.is_empty path then obj else walk (Str.split "." path) obj.

Definition isTruthy (v : value) : bool :=
  match v with
  | VArr xs => (0 <? List.length xs)%nat
  | VObj _ => (0 <? Js.keys_count v)%nat
  | _ => Js.to_boolean v
  end.

Variable options : TemplateEngineOptions.
Variable partials : gmap string string.

Definition processVariables (template : string) (context : list (string * value))
  : string :=
  subst_pieces
    (fun whole path _ =>
       let value := getNestedValue (VObj context) (Str.trim path) in
       if Js.is_nullish value
       then (if preserveUnmatched options then whole else EmptyString)
       else Js.to_string value)
    (scan (var_match (start_of options) (end_of options)) template 0).

Fixpoint processConditionals (depth : nat) (template : string)
    (context : list (string * value)) : option string :=
  match depth with
  | O => None
  | S d =>
      replace_all (block_match (start_of options) (end_of options) "?")
        (fun _ path content =>
           let value := getNestedValue (VObj context) (Str.trim path) in
           if isTruthy value then processConditionals d content context
           else Some EmptyString)
        template
  end.

(** The scope of one loop iteration. *)
Definition itemContext (context : list (string * value)) (len index : nat)
    (item : value) : list (string * value) :=
  let base :=
    Js.set_prop "this" item
      (Js.set_prop "." item
        (Js.set_prop "@key" (VNum (Z.of_nat index))
          (Js.set_prop "@last" (VBool (Nat.eqb index (len - 1)))
            (Js.set_prop "@first" (VBool (Nat.eqb index 0))
              (Js.set_prop "@index" (VNum (Z.of_nat index)) context))))) in
  Js.assign base (Js.object_entries item).

Fixpoint mapM {A B : Type} (f : A -> option B) (l : list A) : option (list B) :=
  match l with
  | [] => Some []
  | a :: r =>
      match f a with
      | Some b => option_map (cons b) (mapM f r)
      | None => None
      end
  end.

Fixpoint processLoops (depth : nat) (template : string)
    (context : list (string * value)) : option string :=
  match depth with
  | O => None
  | S d =>
      replace_all (block_match (start_of options) (end_of options) "#")
        (fun _ path content =>
           match getNestedValue (VObj context) (Str.trim path) with
           | VArr items =>
               option_map Str.concat
                 (mapM (fun '(index, item) =>
                          let ic := itemContext context (List.length items) index item in
                          match processConditionals d content ic with
                          | Some c1 =>
                              match processLoops d c1 ic with
                              | Some c2 => Some (processVariables c2 ic)
                              | None => None
                              end
                          | None => None
                          end)
                       (imap (fun i x => (i, x)) items))
           | _ => Some EmptyString
           end)
        template
  end.

Definition partial_not_found (name : string) : string :=
  "<!-- Partial '" ++ name ++ "' not found -->".

(** [processPartials], with the recursive call to [render] left open. *)
Definition processPartials_with
    (render : string -> list (string * value) -> option string)
    (template : string) (context : list (string * value)) : option string :=
  replace_all (partial_match (start_of options) (end_of options))
    (fun _ name _ =>
       let name := Str.trim name in
       match partials !! name with
       | Some partial =>
           if Str.is_empty partial then Some (partial_not_found name)
           else render partial context
       | None => Some (partial_not_found name)
       end)
    template.

Definition stage (enabled : bool) (pass : string -> option string)
    (template : string) : option string :=
  if enabled then pass template else Some template.

(** [render]; [None] when the nesting of blocks and partials exceeds [depth]. *)
Fixpoint render (depth : nat) (template : string)
    (context : list (string * value)) : option string :=
  match depth with
  | O => None
  | S d =>
      match stage (enableConditionals options)
              (fun t => processConditionals d t context) template with
      | Some r1 =>
          match stage (enableLoops options)
                  (fun t => processLoops d t context) r1 with
          | Some r2 =>
              match stage (enablePartials options)
                      (fun t => processPartials_with (render d) t context) r2 with
              | Some r3 => Some (processVariables r3 context)
              | None => None
              end
          | None => None
          end
      | None => None
      end
  end.

Definition processPartials (depth : nat) := processPartials_with (render depth).

End Engine.

(** The constructor's defaults with [preserveUnmatched] set. *)
Definition preserving_options : TemplateEngineOptions := {|
  preserveUnmatched := true;
  tagStart := "{";
  tagEnd := "}";
  enableConditionals := true;
  enableLoops := true;
  enablePartials := true
|}.

(** The output of a match followed by the output for the rest of the
    template. *)
Definition followed_by (out rest : option string) : option string :=
  match out with
  | Some a => option_map (fun b => a ++ b) rest
  | None => None
  end.

(** One iteration of a loop, as the callback of [processLoops] runs it:
    conditionals, then loops, then variables, all in the scope of the
    item. *)
Definition iteration (inherited : value -> string -> value)
    (o : TemplateEngineOptions) (d : nat) (content : string)
    (context : list (string * value)) (len : nat) (entry : nat * value)
  : option string :=
  let ic := itemContext context len (fst entry) (snd entry) in
  match processConditionals inherited o d content ic with
  | Some c1 =>
      match processLoops inherited o d c1 ic with
      | Some c2 => Some (processVariables inherited o c2 ic)
      | None => None
      end
  | None => None
  end.

(** The tags as written with the default delimiters. *)
Definition opening (sigil : ascii) (path : string) : string :=
  String "{" (String sigil (path ++ "}")).
Definition closing (path : string) : string := "{/" ++ path ++ "}".
Definition block (sigil : ascii) (path content : string) : string :=
  opening sigil path ++ content ++ closing path.
Definition variable (path : string) : string := String "{" (path ++ "}").

(** The delimiters are the default ones. *)
Definition braces (o : TemplateEngineOptions) : Prop :=
  start_of o = "{" /\ end_of o = "}".

(** Text of a path: not empty, and made of characters of the class. *)
Definition path_of (cls : ascii -> bool) (p : string) : Prop :=
  p <> EmptyString /\ Str.forallb cls p = true.

(** The block's own closing tag is the first one behind its opening tag. *)
Definition closes_first (path content rest : string) : Prop :=
  Str.find_sub (closing path) (content ++ closing path ++ rest)
  = Some (String.length content).

End TemplateEngine.

(** ** MD5 (the digest behind [crypto.createHash('md5')], RFC 1321) *)

Module Md5.

Local Open Scope Z_scope.

Definition wrap (x : Z) : Z := x mod 4294967296.
Definition add32 (a b : Z) : Z := wrap (a + b).
Definition not32 (x : Z) : Z := Z.lxor x 0xffffffff.
Definition rotl32 (x c : Z) : Z :=
  Z.lor (wrap (Z.shiftl x c)) (Z.shiftr x (32 - c)).

Definition shifts : list Z := [
  7; 12; 17; 22; 7; 12; 17; 22; 7; 12; 17; 22; 7; 12; 17; 22;
  5; 9; 14; 20; 5; 9; 14; 20; 5; 9; 14; 20; 5; 9; 14; 20;
  4; 11; 16; 23; 4; 11; 16; 23; 4; 11; 16; 23; 4; 11; 16; 23;
  6; 10; 15; 21; 6; 10; 15; 21; 6; 10; 15; 21; 6; 10; 15; 21 ].

Definition sines : list Z := [
  0xd76aa478; 0xe8c7b756; 0x242070db; 0xc1bdceee;
  0xf57c0faf; 0x4787c62a; 0xa8304613; 0xfd469501;
  0x698098d8; 0x8b44f7af; 0xffff5bb1; 0x895cd7be;
  0x6b901122; 0xfd987193; 0xa679438e; 0x49b40821;
  0xf61e2562; 0xc040b340; 0x265e5a51; 0xe9b6c7aa;
  0xd62f105d; 0x02441453; 0xd8a1e681; 0xe7d3fbc8;
  0x21e1cde6; 0xc33707d6; 0xf4d50d87; 0x455a14ed;
  0xa9e3e905; 0xfcefa3f8; 0x676f02d9; 0x8d2a4c8a;
  0xfffa3942; 0x8771f681; 0x6d9d6122; 0xfde5380c;
  0xa4beea44; 0x4bdecfa9; 0xf6bb4b60; 0xbebfbc70;
  0x289b7ec6; 0xeaa127fa; 0xd4ef3085; 0x04881d05;
  0xd9d4d039; 0xe6db99e5; 0x1fa27cf8; 0xc4ac5665;
  0xf4292244; 0x432aff97; 0xab9423a7; 0xfc93a039;
  0x655b59c3; 0x8f0ccc92; 0xffeff47d; 0x85845dd1;
  0x6fa87e4f; 0xfe2ce6e0; 0xa3014314; 0x4e0811a1;
  0xf7537e82; 0xbd3af235; 0x2ad7d2bb; 0xeb86d391 ].

(** The UTF-8 bytes of a string of code units below 256. *)
Fixpoint utf8 (s : string) : list Z :=
  match s with
  | EmptyString => []
  | String c r =>
      let n := Z.of_nat (nat_of_ascii c) in
      if n <? 128 then n :: utf8 r
      else Z.lor 0xc0 (Z.shiftr n 6) :: Z.lor 0x80 (Z.land n 0x3f) :: utf8 r
  end.

Fixpoint le_bytes (count : nat) (x : Z) : list Z :=
  match count with
  | O => []
  | S k => Z.land x 0xff :: le_bytes k (Z.shiftr x 8)
  end.

Fixpoint le_word (bytes : list Z) : Z :=
  match bytes with
  | [] => 0
  | b :: r => b + 256 * le_word r
  end.

Definition pad (msg : list Z) : list Z :=
  let len := Z.of_nat (List.length msg) in
  let zeros := Z.to_nat ((55 - len) mod 64) in
  msg ++ [0x80] ++ repeat 0 zeros ++ le_bytes 8 (8 * len).

Fixpoint words (count : nat) (bytes : list Z) : list Z :=
  match count with
  | O => []
  | S k => le_word (firstn 4 bytes) :: words k (skipn 4 bytes)
  end.

Definition state : Type := Z * Z * Z * Z.

Definition step (m : list Z) (st : state) (i : nat) : state :=
  let '(a, b, c, d) := st in
  let round := (i / 16)%nat in
  let f :=
    match round with
    | 0%nat => Z.lor (Z.land b c) (Z.land (not32 b) d)
    | 1%nat => Z.lor (Z.land d b) (Z.land (not32 d) c)
    | 2%nat => Z.lxor b (Z.lxor c d)
    | _ => Z.lxor c (Z.lor b (not32 d))
    end in
  let g :=
    match round with
    | 0%nat => i
    | 1%nat => ((5 * i + 1) mod 16)%nat
    | 2%nat => ((3 * i + 5) mod 16)%nat
    | _ => ((7 * i) mod 16)%nat
    end in
  let f' := add32 (add32 (add32 f a) (nth i sines 0)) (nth g m 0) in
  (d, add32 b (rotl32 f' (nth i shifts 0)), b, c).

Definition compress (st : state) (chunk : list Z) : state :=
  let m := words 16 chunk in
  let '(a, b, c, d) := fold_left (step m) (seq 0 64) st in
  let '(a0, b0, c0, d0) := st in
  (add32 a0 a, add32 b0 b, add32 c0 c, add32 d0 d).

Fixpoint chunks (count : nat) (st : state) (bytes : list Z) : state :=
  match count with
  | O => st
  | S k => chunks k (compress st (firstn 64 bytes)) (skipn 64 bytes)
  end.

Definition initial : state := (0x67452301, 0xefcdab89, 0x98badcfe, 0x10325476).

Definition hex_digit (n : Z) : ascii :=
  nth (Z.to_nat n)
    ["0"; "1"; "2"; "3"; "4"; "5"; "6"; "7"; "8"; "9";
     "a"; "b"; "c"; "d"; "e"; "f"]%char "0"%char.

Fixpoint hex (bytes : list Z) : string :=
  match bytes with
  | [] => EmptyString
  | b :: r => String (hex_digit (Z.shiftr b 4)) (String (hex_digit (Z.land b 15)) (hex r))
  end.

(** [crypto.createHash('md5').update(data).digest('hex')]. *)
Definition md5 (data : string) : string :=
  let bytes := pad (utf8 data) in
  let '(a, b, c, d) := chunks (List.length bytes / 64) initial bytes in
  hex (le_bytes 4 a ++ le_bytes 4 b ++ le_bytes 4 c ++ le_bytes 4 d).

End Md5.

(** ** Optimized parser: cache, progress reports and document fetch
       (OptimizedSwaggerApiParser) *)

Module Parser.

(** [JSON.stringify] of a header map: the own string properties in insertion
    order. *)
Definition quote : ascii := ascii_of_nat 34.
Definition backslash : ascii := ascii_of_nat 92.

Definition json_escape (c : ascii) : string :=
  let n := nat_of_ascii c in
  let esc (x : ascii) := String backslash (String x EmptyString) in
  if (n =? 34)%nat then esc quote
  else if (n =? 92)%nat then esc backslash
  else if (n =? 8)%nat then esc "b"%char
  else if (n =? 12)%nat then esc "f"%char
  else if (n =? 10)%nat then esc "n"%char
  else if (n =? 13)%nat then esc "r"%char
  else if (n =? 9)%nat then esc "t"%char
  else if (n <? 32)%nat then
    String backslash
      (String "u"%char (String "0"%char (String "0"%char (Md5.hex [Z.of_nat n]))))
  else String c EmptyString.

Fixpoint json_escape_all (s : string) : string :=
  match s with
  | EmptyString => EmptyString
  | String c r => json_escape c ++ json_escape_all r
  end.

Definition json_string (s : string) : string :=
  String quote (json_escape_all s ++ String quote EmptyString).

Definition stringify_headers (headers : list (string * string)) : string :=
  "{" ++ Str.join ","
           (List.map (fun '(k, v) => json_string k ++ ":" ++ json_string v) headers)
      ++ "}".

Record OptimizedSwaggerApiParserOptions := {
  url : string;
  headers : list (string * string);
  skipValidation : bool;
  useCache : bool;
  cacheTTL : Z;
  lazyLoading : bool;
  progressCallback : bool   (* whether a callback was supplied *)
}.

(** The constructor's defaults for everything but the reference. *)
Definition default_options (u : string) : OptimizedSwaggerApiParserOptions := {|
  url := u; headers := []; skipValidation := false; useCache := true;
  cacheTTL := 3600000; lazyLoading := true; progressCallback := true
|}.

Record CacheItem := { timestamp : Z; data : value }.

(** A file of the cache directory: its modification time and what
    [JSON.parse] makes of its content ([None] when it does not parse).
    [JSON.parse (JSON.stringify d)] is [d] for the documents the parser
    stores. *)
Record CacheFile := { mtimeMs : Z; parsed : option value }.

(** What lies outside the parser: the shared cache map, the cache directory
    (one file per key), the clock, and the trace of the reads and of the
    progress reports made so far (latest last). *)
Record World := {
  cache : gmap string CacheItem;
  cacheDir : gmap string CacheFile;
  now : Z;
  reads : list string;
  reports : list (Q * string)
}.

(** The collaborators: the HTTP client, the file system and the OpenAPI
    library.  A failure carries the error's message. *)
Record Env := {
  http_get : string -> list (string * string) -> string + value;
  read_json_file : string -> string + value;
  cache_writable : bool;
  latency : string -> Z;
  sp_parse : value -> string + value;
  sp_validate : value -> string + value
}.

(** The mutable part of a parser instance: [this.api] and
    [this.rawApiData]; its options never change. *)
Record Instance := {
  api : value;
  rawApiData : value
}.

Definition new : Instance := {| api := VUndefined; rawApiData := VUndefined |}.

(** *** Computations over the world and one instance; an exception leaves
        the state as it was when thrown. *)

Inductive result (A : Type) : Type :=
| Ok (a : A)
| Throw (message : string).
Arguments Ok {A} a.
Arguments Throw {A} message.

Definition St : Type := World * Instance.
Definition M (A : Type) : Type := St -> result A * St.

Definition ret {A} (a : A) : M A := fun st => (Ok a, st).
Definition throw {A} (msg : string) : M A := fun st => (Throw msg, st).
Definition bind {A B} (c : M A) (k : A -> M B) : M B :=
  fun st => match c st with
            | (Ok a, st') => k a st'
            | (Throw msg, st') => (Throw msg, st')
            end.
Definition try_catch {A} (c : M A) (handler : string -> M A) : M A :=
  fun st => match c st with
            | (Ok a, st') => (Ok a, st')
            | (Throw msg, st') => handler msg st'
            end.
Definition world : M World := fun st => (Ok (fst st), st).
Definition self : M Instance := fun st => (Ok (snd st), st).
Definition set_world (f : World -> World) : M unit :=
  fun st => (Ok tt, (f (fst st), snd st)).
Definition set_self (f : Instance -> Instance) : M unit :=
  fun st => (Ok tt, (fst st, f (snd st))).

Declare Scope parser_scope.
Delimit Scope parser_scope with parser.
Notation "x <- c ;; k" := (bind c (fun x => k))
  (at level 100, c at next level, right associativity) : parser_scope.
Notation "c ;; k" := (bind c (fun _ => k))
  (at level 100, right associativity) : parser_scope.
Local Open Scope parser_scope.

Definition with_cache (c : gmap string CacheItem) (w : World) : World :=
  {| cache := c; cacheDir := cacheDir w; now := now w;
     reads := reads w; reports := reports w |}.
Definition with_cacheDir (d : gmap string CacheFile) (w : World) : World :=
  {| cache := cache w; cacheDir := d; now := now w;
     reads := reads w; reports := reports w |}.
Definition with_report (r : Q * string) (w : World) : World :=
  {| cache := cache w; cacheDir := cacheDir w; now := now w;
     reads := reads w; reports := reports w ++ [r] |}.
Definition with_read (ref : string) (elapsed : Z) (w : World) : World :=
  {| cache := cache w; cacheDir := cacheDir w; now := (now w + elapsed)%Z;
     reads := reads w ++ [ref]; reports := reports w |}.
Definition with_now (t : Z) (w : World) : World :=
  {| cache := cache w; cacheDir := cacheDir w; now := t;
     reads := reads w; reports := reports w |}.
Definition with_api (a : value) (p : Instance) : Instance :=
  {| api := a; rawApiData := rawApiData p |}.
Definition with_rawApiData (d : value) (p : Instance) : Instance :=
  {| api := api p; rawApiData := d |}.

Definition lift {A} (r : string + A) : M A :=
  match r with inl msg => throw msg | inr a => ret a end.

Section Operations.

Variable env : Env.
Variable options : OptimizedSwaggerApiParserOptions.

(** [axios.get(ref, { headers })]: one network read. *)
Definition axios_get (ref : string) (hs : list (string * string)) : M value :=
  set_world (with_read ref (latency env ref)) ;;
  lift (http_get env ref hs).

(** [JSON.parse(await fs.readFile(ref))]: one file read. *)
Definition read_local (ref : string) : M value :=
  set_world (with_read ref (latency env ref)) ;;
  lift (read_json_file env ref).

Definition getCacheKey : string :=
  Md5.md5 (url options ++ stringify_headers (headers options)).

Definition reportProgress (fraction : Q) (message : string) : M unit :=
  if progressCallback options
  then set_world (with_report (fraction, message))
  else ret tt.

(** [null] is the miss. *)
Definition getFromCache : M value :=
  if negb (useCache options) then ret VNull else
  let cacheKey := getCacheKey in
  w <- world ;;
  match (match cache w !! cacheKey with
         | Some cachedItem =>
             if (now w - timestamp cachedItem <? cacheTTL options)%Z
             then Some (data cachedItem) else None
         | None => None
         end) with
  | Some d => reportProgress (1 # 10) "从内存缓存加载数据" ;; ret d
  | None =>
      match cacheDir w !! cacheKey with
      | Some file =>
          if (now w - mtimeMs file <? cacheTTL options)%Z then
            reportProgress (1 # 10) "从文件缓存加载数据" ;;
            match parsed file with
            | Some d =>
                w' <- world ;;
                set_world (with_cache
                  (<[cacheKey := {| timestamp := now w'; data := d |}]> (cache w'))) ;;
                ret d
            | None => ret VNull
            end
          else ret VNull
      | None => ret VNull
      end
  end.

Definition saveToCache (d : value) : M unit :=
  if negb (useCache options) then ret tt else
  let cacheKey := getCacheKey in
  w <- world ;;
  set_world (with_cache
    (<[cacheKey := {| timestamp := now w; data := d |}]> (cache w))) ;;
  if cache_writable env
  then set_world (fun w' => with_cacheDir
         (<[cacheKey := {| mtimeMs := now w; parsed := Some d |}]> (cacheDir w')) w')
  else ret tt.

(** The static [clearCache(url?)]; [if (url)] also fails on the empty
    string. *)
Definition clearCache (ref : option string) (w : World) : World :=
  match ref with
  | Some u =>
      if Str.is_empty u then with_cacheDir ∅ (with_cache ∅ w)
      else
        let cacheKey := Md5.md5 u in
        with_cacheDir (delete cacheKey (cacheDir w))
          (with_cache (delete cacheKey (cache w)) w)
  | None => with_cacheDir ∅ (with_cache ∅ w)
  end.

(** [data && (data.swagger || data.openapi ||
     (data.paths && Object.keys(data.paths).length > 0))]. *)
Definition looks_like_document (d : value) : bool :=
  Js.to_boolean d
  && (Js.to_boolean (Js.get d "swagger")
      || Js.to_boolean (Js.get d "openapi")
      || (Js.to_boolean (Js.get d "paths")
          && (0 <? Js.keys_count (Js.get d "paths"))%nat)).

Definition baseUrl_of (u : string) : string :=
  let base :=
    if Str.includes u "swagger-ui/" then
      Str.take (default O (Str.find_sub "swagger-ui/" u)) u
    else if Str.includes u "swagger/" then
      Str.take (default O (Str.find_sub "swagger/" u)) u
    else Str.take (default O (Str.last_index_of "/" u)) u in
  if Str.includes base "#" then hd EmptyString (Str.split "#" base) else base.

Definition possibleEndpoints (u : string) : list string :=
  let baseUrl := baseUrl_of u in
  [ baseUrl ++ "/v3/api-docs";
    baseUrl ++ "/v2/api-docs";
    baseUrl ++ "/api-docs";
    baseUrl ++ "/swagger/v3/api-docs";
    baseUrl ++ "/swagger/v2/api-docs";
    baseUrl ++ "/swagger/api-docs";
    Str.replace_first "swagger-ui/index.html" "v3/api-docs" u;
    Str.replace_first "swagger-ui.html" "v3/api-docs" u;
    Str.replace_first "doc.html" "v3/api-docs" u ].

Fixpoint probe (hs : list (string * string)) (endpoints : list string)
  : M (option string) :=
  match endpoints with
  | [] => ret None
  | endpoint :: rest =>
      found <- try_catch
        (reportProgress (15 # 100) ("尝试API端点: " ++ endpoint) ;;
         d <- axios_get endpoint hs ;;
         if looks_like_document d then
           reportProgress (2 # 10) ("找到有效的API文档: " ++ endpoint) ;;
           ret true
         else ret false)
        (fun _ => ret false) ;;
      if (found : bool) then ret (Some endpoint) else probe hs rest
  end.

Definition resolveSwaggerDocUrl (u : string) : M string :=
  if Str.includes u "/api-docs" || Str.includes u "/swagger.json" then ret u
  else if Str.includes u "doc.html" || Str.includes u "swagger-ui.html"
          || Str.includes u "swagger-ui/" || Str.includes u "swagger/index.html"
  then
    reportProgress (1 # 10) "检测到Swagger UI URL，尝试获取API文档地址" ;;
    found <- probe (headers options) (possibleEndpoints u) ;;
    match found with
    | Some endpoint => ret endpoint
    | None =>
        reportProgress (2 # 10) "未找到有效的API文档，使用原始URL" ;;
        ret u
    end
  else ret u.

(** The part of [fetchRawApiData] behind the cache lookup: resolve the
    reference, read the document from the network or from the local file,
    store it in both tiers. *)
Definition acquire : M value :=
  reportProgress (3 # 10) "开始获取API文档" ;;
  resolvedUrl <- resolveSwaggerDocUrl (url options) ;;
  apiData <-
    (if String.prefix "http" resolvedUrl then
       try_catch (axios_get resolvedUrl (headers options))
         (fun msg => throw ("获取API文档失败: " ++ msg))
     else
       try_catch (read_local resolvedUrl)
         (fun msg => throw ("读取本地文件失败: " ++ msg))) ;;
  reportProgress (5 # 10) "API文档获取成功，保存到缓存" ;;
  saveToCache apiData ;;
  set_self (with_rawApiData apiData) ;;
  ret apiData.

Definition fetchRawApiData : M value :=
  p <- self ;;
  if Js.to_boolean (rawApiData p) then ret (rawApiData p) else
  cachedData <- getFromCache ;;
  if Js.to_boolean cachedData then
    set_self (with_rawApiData cachedData) ;;
    ret cachedData
  else acquire.

(** [a || b]. *)
Definition or_else (a b : value) : value := if Js.to_boolean a then a else b.

Definition liteDoc (apiData : value) : value :=
  VObj [ ("openapi", or_else (Js.get apiData "openapi")
                       (or_else (Js.get apiData "swagger") (VStr "3.0.0")));
         ("info", or_else (Js.get apiData "info")
                    (VObj [("title", VStr "API"); ("version", VStr "1.0.0")]));
         ("paths", or_else (Js.get apiData "paths") (VObj []));
         ("components", VObj [("schemas", VObj [])]) ].

Definition parseApiLite : M value :=
  reportProgress (6 # 10) "开始轻量级解析API文档" ;;
  apiData <- fetchRawApiData ;;
  match apiData with
  | VUndefined => throw "Cannot read properties of undefined (reading 'openapi')"
  | VNull => throw "Cannot read properties of null (reading 'openapi')"
  | _ =>
  try_catch
    (reportProgress (7 # 10) "正在解析基本API结构" ;;
     lift (sp_parse env (liteDoc apiData)))
    (fun msg => throw ("解析API文档失败: " ++ msg))
  end.

Definition fetchApi (forceRefresh : bool) : M value :=
  p <- self ;;
  if Js.to_boolean (api p) && negb forceRefresh then ret (api p) else
  try_catch
    ((if lazyLoading options then
        doc <- parseApiLite ;;
        set_self (with_api doc)
      else
        apiData <- fetchRawApiData ;;
        reportProgress (6 # 10) "开始完整解析API文档" ;;
        try_catch
          (if skipValidation options then
             doc <- lift (sp_parse env apiData) ;;
             set_self (with_api doc)
           else
             try_catch
               (doc <- lift (sp_validate env apiData) ;;
                set_self (with_api doc))
               (fun _ =>
                  reportProgress (7 # 10) "验证失败，使用不严格解析" ;;
                  doc <- lift (sp_parse env apiData) ;;
                  set_self (with_api doc)))
          (fun msg => throw ("解析API文档失败: " ++ msg))) ;;
     reportProgress 1 "API文档解析完成" ;;
     p' <- self ;;
     ret (api p'))
    (fun msg =>
       reportProgress 1 ("解析失败: " ++ msg) ;;
       throw ("Failed to fetch API: " ++ msg)).

End Operations.

(** [new OptimizedSwaggerApiParser(o).fetchRawApiData()]: the state of the
    world after the call, and what the call returned. *)
Definition fetch (env : Env) (o : OptimizedSwaggerApiParserOptions) (w : World)
  : result value * World :=
  let '(r, (w', _)) := fetchRawApiData env o (w, new) in (r, w').



(** The world after [reportProgress]: the report is appended when a
    callback was supplied. *)
Definition reported (o : OptimizedSwaggerApiParserOptions) (fraction : Q)
    (message : string) (w : World) : World :=
  if progressCallback o then with_report (fraction, message) w else w.

(** The world after [saveToCache]: the entry is written to the in-memory
    tier and, when the cache directory takes the write, to the on-disk
    tier. *)
Definition stored (env : Env) (o : OptimizedSwaggerApiParserOptions)
    (d : value) (w : World) : World :=
  if useCache o then
    with_cacheDir
      (if cache_writable env
       then <[getCacheKey o := {| mtimeMs := now w; parsed := Some d |}]> (cacheDir w)
       else cacheDir w)
      (with_cache (<[getCacheKey o := {| timestamp := now w; data := d |}]> (cache w)) w)
  else w.

(** The fractions reported, in order. *)
Definition fractions (w : World) : list Q := List.map fst (reports w).

Fixpoint non_decreasing (l : list Q) : bool :=
  match l with
  | a :: ((b :: _) as r) => Qle_bool a b && non_decreasing r
  | _ => true
  end.

(** A server that answers every request with a small document, an empty
    cache at time 1000, and a server that answers with an empty body. *)
Definition sample_document : value :=
  VObj [("openapi", VStr "3.0.0"); ("paths", VObj [])].

Definition sample_env (response : value) : Env := {|
  http_get := fun _ _ => inr response;
  read_json_file := fun _ => inl "ENOENT: no such file or directory";
  cache_writable := true;
  latency := fun _ => 5%Z;
  sp_parse := fun doc => inr doc;
  sp_validate := fun doc => inr doc
|}.

Definition empty_world : World :=
  {| cache := ∅; cacheDir := ∅; now := 1000%Z; reads := []; reports := [] |}.

Definition sample_url : string := "http://localhost/api.json".

End Parser.

(** ** Model projections: filters and grouping (the two generators) *)

Module Projections.

(** The members every object literal inherits from [Object.prototype]. *)
Definition object_prototype_members : list string :=
  [ "constructor"; "__defineGetter__"; "__defineSetter__"; "hasOwnProperty";
    "__lookupGetter__"; "__lookupSetter__"; "isPrototypeOf";
    "propertyIsEnumerable"; "toString"; "valueOf"; "__proto__";
    "toLocaleString" ].

Definition is_inherited (name : string) : bool :=
  existsb (String.eqb name) object_prototype_members.

(** What [record[name]] reads from an object literal used as a record. *)
Inductive read (V : Type) : Type :=
| Own (v : V)
| Inherited
| Missing.
Arguments Own {V} v.
Arguments Inherited {V}.
Arguments Missing {V}.

Definition record_get {V : Type} (record : gmap string V) (name : string)
  : read V :=
  match record !! name with
  | Some v => Own v
  | None => if is_inherited name then Inherited else Missing
  end.

(** An operation; the parameters, the request body and the responses play
    no part in the projections. *)
Record ApiOperation := {
  operationId : string;
  method : string;
  path : string;
  summary : option string;
  description : option string;
  tags : option (list string)
}.

(** [includes]. *)
Definition includes (l : list string) (x : string) : bool :=
  existsb (String.eqb x) l.

(** [list && list.length > 0] *)
Definition supplied (l : option (list string)) : bool :=
  match l with
  | Some (_ :: _) => true
  | _ => false
  end.

Definition some_tag_in (op : ApiOperation) (l : list string) : bool :=
  match tags op with
  | Some ts => existsb (includes l) ts
  | None => false
  end.

Definition filterOperations (operations : list ApiOperation)
    (includeTags excludeTags : option (list string)) : list ApiOperation :=
  if supplied includeTags then
    List.filter (fun op => some_tag_in op (default [] includeTags)) operations
  else if supplied excludeTags then
    List.filter (fun op => negb (some_tag_in op (default [] excludeTags)))
      operations
  else operations.

Section Schemas.

Variable SchemaObject : Type.

(** What a table slot holds: a schema, or a member of [Object.prototype]
    that a read through the prototype chain copied into it. *)
Inductive slot : Type :=
| Schema (s : SchemaObject)
| Builtin (name : string).

(** The tables are the own properties.  [result[schemaName] = v] defines
    an own property, except for the name [__proto__]: that assignment runs
    the inherited setter and leaves the own properties as they are. *)
Definition filterSchemas (schemas : gmap string slot)
    (includeSchemas excludeSchemas : option (list string))
  : gmap string slot :=
  if supplied includeSchemas then
    fold_left
      (fun result schemaName =>
         if String.eqb schemaName "__proto__" then result else
         match record_get schemas schemaName with
         | Own v => <[schemaName := v]> result
         | Inherited => <[schemaName := Builtin schemaName]> result
         | Missing => result
         end)
      (default [] includeSchemas) ∅
  else if supplied excludeSchemas then
    fold_left (fun result schemaName => delete schemaName result)
      (default [] excludeSchemas) schemas
  else schemas.

End Schemas.

Arguments Schema {SchemaObject} s.
Arguments Builtin {SchemaObject} name.
Arguments filterSchemas {SchemaObject} schemas includeSchemas excludeSchemas.

Inductive GroupBy := ByTag | ByPath | ByNone.

(** [operation.path.split('/').filter(Boolean)]. *)
Definition pathParts (p : string) : list string :=
  List.filter (fun part => negb (Str.is_empty part)) (Str.split "/" p).

Definition groupNames (groupBy : GroupBy) (operation : ApiOperation)
  : list string :=
  match groupBy with
  | ByTag =>
      match tags operation with
      | Some (t :: ts) => t :: ts
      | _ => ["default"]
      end
  | ByPath => [hd "default" (pathParts (path operation))]
  | ByNone => []
  end.

(** [if (!grouped[name]) grouped[name] = []; grouped[name].push(operation)].
    An inherited member is truthy, so nothing is stored, and it has no
    [push]: the call throws a TypeError. *)
Definition add_to_group (grouped : gmap string (list ApiOperation))
    (name : string) (operation : ApiOperation)
  : option (gmap string (list ApiOperation)) :=
  match record_get grouped name with
  | Own l => Some (<[name := (l ++ [operation])%list]> grouped)
  | Missing => Some (<[name := [operation]]> grouped)
  | Inherited => None
  end.

Fixpoint add_to_groups (grouped : gmap string (list ApiOperation))
    (names : list string) (operation : ApiOperation)
  : option (gmap string (list ApiOperation)) :=
  match names with
  | [] => Some grouped
  | name :: rest =>
      match add_to_group grouped name operation with
      | Some g => add_to_groups g rest operation
      | None => None
      end
  end.

Fixpoint group_loop (groupBy : GroupBy)
    (grouped : gmap string (list ApiOperation))
    (operations : list ApiOperation)
  : option (gmap string (list ApiOperation)) :=
  match operations with
  | [] => Some grouped
  | operation :: rest =>
      match add_to_groups grouped (groupNames groupBy operation) operation with
      | Some g => group_loop groupBy g rest
      | None => None
      end
  end.

(** [None] stands for the TypeError. *)
Definition groupOperations (operations : list ApiOperation) (groupBy : GroupBy)
  : option (gmap string (list ApiOperation)) :=
  match groupBy with
  | ByNone => Some {[ "api" := operations ]}
  | _ => group_loop groupBy ∅ operations
  end.

(** What the grouping loop puts in the group [name]: each operation once
    per occurrence of [name] among its group names, in the order of the
    operations. *)
Definition occurrences (name : string) (names : list string)
    (operation : ApiOperation) : list ApiOperation :=
  List.map (fun _ => operation) (List.filter (String.eqb name) names).

Definition placed (groupBy : GroupBy) (name : string)
    (operations : list ApiOperation) : list ApiOperation :=
  flat_map (fun operation => occurrences name (groupNames groupBy operation) operation)
    operations.

(** A group after more operations were pushed to it; a group comes to exist
    with its first operation. *)
Definition extend (group : option (list ApiOperation)) (more : list ApiOperation)
  : option (list ApiOperation) :=
  match group, more with
  | Some l, _ => Some (l ++ more)%list
  | None, [] => None
  | None, _ => Some more
  end.

(** No group is stored under a name that every object inherits. *)
Definition own_names_only (grouped : gmap string (list ApiOperation)) : Prop :=
  forall name l, grouped !! name = Some l -> is_inherited name = false.

End Projections.

(** ** Template manager (TemplateManager) *)

Module TemplateManager.

Inductive TemplateType :=
| API_CLIENT
| TYPESCRIPT_TYPES
| CONFIG_FILE
| OtherType (name : string).

Record Template := {
  id : string;
  name : string;
  type : TemplateType;
  framework : option string;
  path : option string;
  content : option string;
  isBuiltIn : option bool;
  description : option string
}.

(** The two template directories: each manifest ([templates.json], [None]
    when the file is missing) holds the entries without their bodies, and
    the body files are keyed by their path relative to the directory. *)
Record Disk := {
  builtInConfig : option (list Template);
  builtInFiles : gmap string string;
  customConfig : option (list Template);
  customFiles : gmap string string
}.

Record Manager := {
  builtInTemplates : list Template;
  customTemplates : list Template;
  initialized : bool
}.

(** [new TemplateManager()]. *)
Definition new : Manager :=
  {| builtInTemplates := []; customTemplates := []; initialized := false |}.

Definition State : Type := Disk * Manager.

Inductive outcome (A : Type) : Type :=
| Done (a : A)
| Failed (message : string).
Arguments Done {A} a.
Arguments Failed {A} message.

Definition set_content (c : option string) (b : option bool) (t : Template)
  : Template :=
  {| id := id t; name := name t; type := type t; framework := framework t;
     path := path t; content := c; isBuiltIn := b;
     description := description t |}.

(** [({ content, ...rest }) => rest]. *)
Definition without_content (t : Template) : Template :=
  {| id := id t; name := name t; type := type t; framework := framework t;
     path := path t; content := None; isBuiltIn := isBuiltIn t;
     description := description t |}.

Definition with_customConfig (c : option (list Template)) (d : Disk) : Disk :=
  {| builtInConfig := builtInConfig d; builtInFiles := builtInFiles d;
     customConfig := c; customFiles := customFiles d |}.
Definition with_customFiles (f : gmap string string) (d : Disk) : Disk :=
  {| builtInConfig := builtInConfig d; builtInFiles := builtInFiles d;
     customConfig := customConfig d; customFiles := f |}.
Definition with_builtIn (l : list Template) (m : Manager) : Manager :=
  {| builtInTemplates := l; customTemplates := customTemplates m;
     initialized := initialized m |}.
Definition with_custom (l : list Template) (m : Manager) : Manager :=
  {| builtInTemplates := builtInTemplates m; customTemplates := l;
     initialized := initialized m |}.
Definition with_initialized (b : bool) (m : Manager) : Manager :=
  {| builtInTemplates := builtInTemplates m;
     customTemplates := customTemplates m; initialized := b |}.

(** Creates the manifest of the custom directory when it is missing. *)
Definition ensureDirectoriesExist (d : Disk) : Disk :=
  match customConfig d with
  | Some _ => d
  | None => with_customConfig (Some []) d
  end.

(** Each entry is pushed as soon as its body is read: a failure leaves the
    entries loaded before it in the list. *)
Fixpoint load_builtIn (d : Disk) (entries : list Template) (m : Manager)
  : outcome unit * Manager :=
  match entries with
  | [] => (Done tt, m)
  | t :: rest =>
      match path t with
      | None => (Failed "The path argument must be of type string", m)
      | Some rel =>
          match builtInFiles d !! rel with
          | Some body =>
              load_builtIn d rest
                (with_builtIn
                   (builtInTemplates m ++ [set_content (Some body) (Some true) t]) m)
          | None => (Failed ("ENOENT: no such file or directory, open " ++ rel), m)
          end
      end
  end.

Definition loadBuiltInTemplates (d : Disk) (m : Manager)
  : outcome unit * Manager :=
  match builtInConfig d with
  | Some entries => load_builtIn d entries m
  | None => (Failed "ENOENT: no such file or directory, open templates.json", m)
  end.

(** An entry whose body cannot be read is skipped; an entry without a path
    ends the loop and, not being a missing file, the load. *)
Fixpoint load_custom (d : Disk) (entries : list Template) (m : Manager)
  : outcome unit * Manager :=
  match entries with
  | [] => (Done tt, m)
  | t :: rest =>
      match path t with
      | None => (Failed "The path argument must be of type string", m)
      | Some rel =>
          match customFiles d !! rel with
          | Some body =>
              load_custom d rest
                (with_custom
                   (customTemplates m ++ [set_content (Some body) (Some false) t]) m)
          | None => load_custom d rest m
          end
      end
  end.

Definition loadCustomTemplates (st : State) : outcome unit * State :=
  let '(d, m) := st in
  match customConfig d with
  | Some entries =>
      let '(r, m') := load_custom d entries m in (r, (d, m'))
  | None => (Done tt, (with_customConfig (Some []) d, m))
  end.

Definition initialize (st : State) : outcome unit * State :=
  let '(d, m) := st in
  if initialized m then (Done tt, st) else
  let d1 := ensureDirectoriesExist d in
  match loadBuiltInTemplates d1 m with
  | (Failed msg, m1) => (Failed msg, (d1, m1))
  | (Done _, m1) =>
      match loadCustomTemplates (d1, m1) with
      | (Failed msg, st2) => (Failed msg, st2)
      | (Done _, (d2, m2)) => (Done tt, (d2, with_initialized true m2))
      end
  end.

Definition getAllTemplates (m : Manager) : list Template :=
  builtInTemplates m ++ customTemplates m.

Definition getTemplate (m : Manager) (i : string) : option Template :=
  List.find (fun t => String.eqb (id t) i) (getAllTemplates m).

Definition relativePath (t : Template) : string :=
  match type t with
  | API_CLIENT => "api-client/" ++ id t ++ ".tpl"
  | TYPESCRIPT_TYPES => "typescript-types/" ++ id t ++ ".tpl"
  | CONFIG_FILE => "config/" ++ id t ++ ".tpl"
  | OtherType _ => id t ++ ".tpl"
  end.

(** [customTemplates[existingIndex] = t], or [push] when no entry has the
    identifier. *)
Fixpoint upsert (t : Template) (l : list Template) : list Template :=
  match l with
  | [] => [t]
  | x :: r => if String.eqb (id x) (id t) then t :: r else x :: upsert t r
  end.

Definition updateCustomTemplatesConfig (st : State) : State :=
  let '(d, m) := st in
  (with_customConfig (Some (List.map without_content (customTemplates m))) d, m).

(** [existingTemplate?.isBuiltIn]. *)
Definition is_builtIn (t : option Template) : bool :=
  match t with
  | Some x => default false (isBuiltIn x)
  | None => false
  end.

(** Every template of the built-in list carries the mark
    [loadBuiltInTemplates] gives it. *)
Definition built_ins_marked (m : Manager) : Prop :=
  Forall (fun b => isBuiltIn b = Some true) (builtInTemplates m).

Definition saveCustomTemplate (template : Template) (st : State)
  : outcome Template * State :=
  match initialize st with
  | (Failed msg, st1) => (Failed msg, st1)
  | (Done _, (d, m)) =>
      if is_builtIn (getTemplate m (id template)) then
        (Failed ("Cannot override built-in template: " ++ id template), (d, m))
      else
        let rel := relativePath template in
        let d1 :=
          with_customFiles
            (<[rel := default EmptyString (content template)]> (customFiles d)) d in
        let newTemplate :=
          {| id := id template; name := name template; type := type template;
             framework := framework template; path := Some rel;
             content := content template; isBuiltIn := Some false;
             description := description template |} in
        let m1 := with_custom (upsert newTemplate (customTemplates m)) m in
        (Done newTemplate, updateCustomTemplatesConfig (d1, m1))
  end.

(** [false] also stands for the errors the method swallows: a built-in
    template, a template without a path, a body file that is not there. *)
Definition deleteCustomTemplate (i : string) (st : State) : outcome bool * State :=
  match initialize st with
  | (Failed msg, st1) => (Failed msg, st1)
  | (Done _, (d, m)) =>
      match getTemplate m i with
      | None => (Done false, (d, m))
      | Some template =>
          if default false (isBuiltIn template) then (Done false, (d, m))
          else
            match path template with
            | None => (Done false, (d, m))
            | Some rel =>
                match customFiles d !! rel with
                | None => (Done false, (d, m))
                | Some _ =>
                    let d1 := with_customFiles (delete rel (customFiles d)) d in
                    let m1 :=
                      with_custom
                        (List.filter (fun t => negb (String.eqb (id t) i))
                           (customTemplates m)) m in
                    (Done true, updateCustomTemplatesConfig (d1, m1))
                end
            end
      end
  end.

End TemplateManager.

(** * Properties *)

(** ** Strings *)

#[local] Arguments String.append !_ _ / : simpl nomatch.
#[local] Arguments String.length !_ / : simpl nomatch.

Lemma str_app_nil_r (s : string) : s ++ EmptyString = s.
Proof. induction s as [|c s IH]; simpl; [reflexivity | now rewrite IH]. Qed.

Lemma str_app_assoc (a b c : string) : (a ++ b) ++ c = a ++ (b ++ c).
Proof. induction a as [|x a IH]; simpl; [reflexivity | now rewrite IH]. Qed.

Lemma str_length_app (a b : string) :
  String.length (a ++ b) = (String.length a + String.length b)%nat.
Proof. induction a as [|x a IH]; simpl; [reflexivity | now rewrite IH]. Qed.

Lemma str_take_app (w r : string) : Str.take (String.length w) (w ++ r) = w.
Proof. induction w as [|x w IH]; simpl; [now destruct r | now rewrite IH]. Qed.

Lemma str_drop_app (w r : string) : Str.drop (String.length w) (w ++ r) = r.
Proof. induction w as [|x w IH]; simpl; [reflexivity | exact IH]. Qed.

Lemma str_prefix_app (w r : string) : String.prefix w (w ++ r) = true.
Proof.
  induction w as [|x w IH]; simpl; [now destruct r |].
  destruct (ascii_dec x x); [exact IH | congruence].
Qed.

Lemma str_prefix_head (a b : ascii) (w r : string) :
  a <> b -> String.prefix (String a w) (String b r) = false.
Proof. intros Hab. simpl. destruct (ascii_dec a b); [contradiction | reflexivity]. Qed.

(** ** Template engine: how the scanner cuts a template *)

Import TemplateEngine.

Lemma scan_skip (m : string -> option capture) (w r : string) :
  scan m (w ++ r) (String.length w) = scan m r 0.
Proof. induction w as [|x w IH]; simpl; [reflexivity | exact IH]. Qed.

(** A match at the head of the template becomes one piece, and the scan
    resumes behind it. *)
Lemma scan_hit (m : string -> option capture) (c : ascii) (w r path content : string) :
  m (String c w ++ r) = Some (S (String.length w), path, content) ->
  scan m (String c w ++ r) 0 = Hit (String c w) path content :: scan m r 0.
Proof.
  intros Hm. change (String c w ++ r) with (String c (w ++ r)) in *.
  cbn [scan]. rewrite Hm. cbn [Str.take]. rewrite str_take_app.
  replace (S (String.length w) - 1)%nat with (String.length w) by lia.
  now rewrite scan_skip.
Qed.

(** With [}] as the closing delimiter the lazy group has one candidate: the
    characters up to the first [}]. *)
Lemma lazy_path_closing {R : Type} (cls : ascii -> bool)
    (k : string -> string -> option R) (p acc rest : string) :
  cls "}"%char = false ->
  p <> EmptyString ->
  Str.forallb cls p = true ->
  lazy_path cls "}" k acc (p ++ String "}" rest) = k (acc ++ p) rest.
Proof.
  intros Hcls. revert acc. induction p as [|c p IH]; intros acc Hne Hall.
  - congruence.
  - simpl in Hall. apply andb_true_iff in Hall as [Hc Hall].
    cbn [String.append lazy_path]. rewrite Hc.
    destruct p as [|c' p].
    + cbn [String.append].
      change (String "}" rest) with (String "}" EmptyString ++ rest) at 1.
      rewrite str_prefix_app. cbn [String.length Str.drop].
      destruct (k (acc ++ String c EmptyString) rest) eqn:Hk; [reflexivity|].
      cbn [lazy_path]. now rewrite Hcls.
    + assert (Hc' : cls c' = true)
        by (simpl in Hall; now apply andb_true_iff in Hall as [? _]).
      cbn [String.append]. rewrite str_prefix_head.
      2:{ intros <-. congruence. }
      change (String c' (p ++ String "}" rest)) with (String c' p ++ String "}" rest).
      rewrite IH; [| discriminate | exact Hall].
      now rewrite str_app_assoc.
Qed.

Lemma block_match_tag (sigil : ascii) (p body : string) :
  path_of not_brace p ->
  block_match "{" "}" sigil (opening sigil p ++ body) =
    match Str.find_sub (closing p) body with
    | Some k =>
        Some (String.length (opening sigil p) + k + String.length (closing p),
              p, Str.take k body)%nat
    | None => None
    end.
Proof.
  intros [Hne Hall]. unfold block_match, opening.
  change (String "{" (String sigil (p ++ "}")) ++ body)
    with (("{" ++ String sigil EmptyString) ++ (p ++ "}") ++ body).
  rewrite str_prefix_app, str_drop_app, str_app_assoc.
  change ("}" ++ body) with (String "}" body).
  rewrite lazy_path_closing by (try reflexivity; assumption).
  cbn [String.append]. unfold closing.
  destruct (Str.find_sub _ body) as [k|]; [|reflexivity].
  do 2 f_equal. f_equal.
  cbn [String.length String.append]. rewrite !str_length_app. cbn [String.length]. lia.
Qed.

Lemma scan_block (sigil : ascii) (p content rest : string) :
  path_of not_brace p ->
  closes_first p content rest ->
  scan (block_match "{" "}" sigil) (block sigil p content ++ rest) 0 =
    Hit (block sigil p content) p content
      :: scan (block_match "{" "}" sigil) rest 0.
Proof.
  intros Hp Hclose. unfold block.
  set (w := String sigil (p ++ "}") ++ content ++ closing p).
  assert (Hw : opening sigil p ++ content ++ closing p = String "{" w) by reflexivity.
  rewrite Hw. apply scan_hit.
  rewrite <- Hw, !str_app_assoc.
  rewrite block_match_tag by assumption.
  unfold closes_first in Hclose. rewrite Hclose, str_take_app.
  do 2 f_equal. f_equal.
  assert (String.length (String "{" w) = S (String.length w)) by reflexivity.
  rewrite <- H, <- Hw, !str_length_app. lia.
Qed.

Lemma scan_variable (p rest : string) :
  path_of var_char p ->
  scan (var_match "{" "}") (variable p ++ rest) 0 =
    Hit (variable p) p EmptyString :: scan (var_match "{" "}") rest 0.
Proof.
  intros [Hne Hall]. unfold variable.
  apply scan_hit.
  change (String "{" (p ++ "}") ++ rest) with ("{" ++ (p ++ "}") ++ rest).
  unfold var_match. rewrite str_prefix_app, str_drop_app, str_app_assoc.
  change ("}" ++ rest) with (String "}" rest).
  rewrite lazy_path_closing by (try reflexivity; assumption).
  cbn [String.append String.length]. rewrite str_length_app.
  cbn [String.length]. repeat f_equal; lia.
Qed.


(** ** Template engine: what each pass does with one tag *)

Section Passes.

Variable inherited : value -> string -> value.
Variable o : TemplateEngineOptions.
Variable partials : gmap string string.
Hypothesis Hbraces : braces o.

Lemma processVariables_tag (p rest : string) (c : list (string * value)) :
  path_of var_char p ->
  processVariables inherited o (variable p ++ rest) c =
    (let v := getNestedValue inherited (VObj c) (Str.trim p) in
     if Js.is_nullish v
     then (if preserveUnmatched o then variable p else EmptyString)
     else Js.to_string v)
    ++ processVariables inherited o rest c.
Proof.
  intros Hp. destruct Hbraces as [Hs He].
  unfold processVariables. rewrite Hs, He, scan_variable by assumption.
  reflexivity.
Qed.

Lemma processConditionals_block (d : nat) (p content rest : string)
    (c : list (string * value)) :
  path_of not_brace p ->
  closes_first p content rest ->
  processConditionals inherited o (S d) (block "?" p content ++ rest) c =
    followed_by
      (if isTruthy (getNestedValue inherited (VObj c) (Str.trim p))
       then processConditionals inherited o d content c
       else Some EmptyString)
      (processConditionals inherited o (S d) rest c).
Proof.
  intros Hp Hc. destruct Hbraces as [Hs He].
  cbn [processConditionals]. unfold replace_all.
  rewrite Hs, He, scan_block by assumption.
  reflexivity.
Qed.

Lemma processLoops_block (d : nat) (p content rest : string)
    (c : list (string * value)) :
  path_of not_brace p ->
  closes_first p content rest ->
  processLoops inherited o (S d) (block "#" p content ++ rest) c =
    followed_by
      (match getNestedValue inherited (VObj c) (Str.trim p) with
       | VArr items =>
           option_map Str.concat
             (mapM (iteration inherited o d content c (List.length items))
                (imap (fun i x => (i, x)) items))
       | _ => Some EmptyString
       end)
      (processLoops inherited o (S d) rest c).
Proof.
  intros Hp Hc. destruct Hbraces as [Hs He].
  cbn [processLoops]. unfold replace_all.
  rewrite Hs, He, scan_block by assumption.
  cbn [replace_pieces]. unfold followed_by.
  destruct (getNestedValue inherited (VObj c) (Str.trim p)); try reflexivity.
  unfold iteration.
  match goal with
  | |- match option_map _ (mapM ?f _) with _ => _ end = _ =>
      match goal with
      | |- _ = match option_map _ (mapM ?g _) with _ => _ end =>
          assert (Hfg : forall e, f e = g e) by (intros [i x]; reflexivity)
      end
  end.
  match goal with
  | |- match option_map _ (mapM ?f ?l) with _ => _ end = _ =>
      assert (Hm : forall l', mapM f l' = mapM (iteration inherited o d content c (List.length xs)) l')
  end.
  { induction l' as [|e l' IH]; [reflexivity|].
    cbn [mapM]. rewrite IH, Hfg. reflexivity. }
  unfold iteration in Hm. rewrite Hm. reflexivity.
Qed.


End Passes.

(** ** Template engine: the claims *)

Lemma assoc_set_prop (k k' : string) (v : value) (fs : list (string * value)) :
  Js.assoc k (Js.set_prop k' v fs) =
    if String.eqb k k' then Some v else Js.assoc k fs.
Proof.
  induction fs as [|[k0 v0] fs IH]; cbn [Js.set_prop Js.assoc].
  - reflexivity.
  - destruct (String.eqb_spec k' k0) as [->|Hne]; cbn [Js.assoc].
    + destruct (String.eqb k k0); reflexivity.
    + rewrite IH. destruct (String.eqb_spec k k0) as [->|Hne'].
      * destruct (String.eqb_spec k0 k'); [congruence | reflexivity].
      * reflexivity.
Qed.

(** A field the source object lacks keeps the value the target had. *)
Lemma assoc_assign_other (k : string) (source target : list (string * value)) :
  Js.assoc k source = None ->
  Js.assoc k (Js.assign target source) = Js.assoc k target.
Proof.
  unfold Js.assign. revert target.
  induction source as [|[k0 v0] source IH]; intros target Hk; cbn [fold_left].
  - reflexivity.
  - cbn [Js.assoc] in Hk. destruct (String.eqb k k0) eqn:E; [discriminate|].
    rewrite IH by exact Hk. cbn [fst snd]. now rewrite assoc_set_prop, E.
Qed.

(** C4. The block [{?flag}X{/flag}] renders as nothing when [flag] is the
    empty array or the number 0, and as [X] when it is a one-element array
    or the string "0"; for every value of [flag] the content is kept exactly
    when [isTruthy] holds, and [isTruthy] holds exactly for a non-empty
    array, for a non-empty object whatever its fields hold, and for a value
    that is neither an array nor an object and that coerces to true. *)
Theorem conditional_truthiness (inherited : value -> string -> value)
    (partials : gmap string string) (d : nat) (v : value) :
  let engine := render inherited default_options partials (S (S (S d))) in
  engine "{?flag}X{/flag}" [("flag", VArr [])] = Some EmptyString
  /\ engine "{?flag}X{/flag}" [("flag", VNum 0)] = Some EmptyString
  /\ engine "{?flag}X{/flag}" [("flag", VArr [VNum 1])] = Some "X"
  /\ engine "{?flag}X{/flag}" [("flag", VStr "0")] = Some "X"
  /\ engine "{?flag}X{/flag}" [("flag", v)]
     = Some (if isTruthy v then "X" else EmptyString)
  /\ (isTruthy v = true <->
        (exists x xs, v = VArr (x :: xs))
        \/ (exists f fs, v = VObj (f :: fs))
        \/ (Js.isArray v = false /\ Js.is_plain_object v = false
            /\ Js.to_boolean v = true)).
Proof.
  intros engine. subst engine.
  repeat match goal with |- _ /\ _ => split end; try reflexivity.
  - cbn [render stage default_options enableConditionals].
    change "{?flag}X{/flag}" with (block "?" "flag" "X" ++ EmptyString).
    rewrite processConditionals_block;
      [| split; reflexivity | split; [discriminate | reflexivity] | reflexivity].
    change (getNestedValue inherited (VObj [("flag", v)]) (Str.trim "flag")) with v.
    destruct (isTruthy v); reflexivity.
  - destruct v as [| | | | |xs|fs|]; cbn;
      try (split; [intros H; right; right; auto
                  | intros [(? & ? & ?)|[(? & ? & ?)|(_ & _ & ?)]];
                    congruence]).
    + destruct xs as [|x xs]; cbn.
      * split; [discriminate|].
        intros [(? & ? & ?)|[(? & ? & ?)|(? & _)]]; congruence.
      * split; [eauto|reflexivity].
    + destruct fs as [|f fs]; cbn.
      * split; [discriminate|].
        intros [(? & ? & ?)|[(? & ? & ?)|(_ & ? & _)]]; congruence.
      * split; [eauto 6|reflexivity].
Qed.

(** C10. A variable tag whose path resolves to undefined or null is replaced
    by the empty string, or left as written in preserve-unmatched mode;
    every other value, false, 0 and the empty string included, is written
    by [String]: [{flag}] with [flag] bound to false renders as "false" in
    both modes. *)
Theorem variable_substitution (inherited : value -> string -> value)
    (o : TemplateEngineOptions) (partials : gmap string string)
    (p rest : string) (c : list (string * value)) (d : nat) :
  braces o ->
  path_of var_char p ->
  processVariables inherited o (variable p ++ rest) c =
    (let v := getNestedValue inherited (VObj c) (Str.trim p) in
     if Js.is_nullish v
     then (if preserveUnmatched o then variable p else EmptyString)
     else Js.to_string v)
    ++ processVariables inherited o rest c
  /\ (let engine := render inherited default_options partials (S (S d)) in
      engine "{flag}" [("flag", VBool false)] = Some "false"
      /\ engine "{flag}" [("flag", VNum 0)] = Some "0"
      /\ engine "[{flag}]" [("flag", VStr EmptyString)] = Some "[]"
      /\ engine "[{flag}]" [("flag", VUndefined)] = Some "[]"
      /\ engine "[{flag}]" [("flag", VNull)] = Some "[]")
  /\ (let engine := render inherited preserving_options partials (S (S d)) in
      engine "{flag}" [("flag", VBool false)] = Some "false"
      /\ engine "{flag}" [("flag", VNum 0)] = Some "0"
      /\ engine "[{flag}]" [("flag", VStr EmptyString)] = Some "[]"
      /\ engine "[{flag}]" [("flag", VUndefined)] = Some "[{flag}]"
      /\ engine "[{flag}]" [("flag", VNull)] = Some "[{flag}]").
Proof.
  intros Hb Hp. split; [now apply processVariables_tag|].
  repeat split; reflexivity.
Qed.

Lemma variable_substitution_witness :
  braces preserving_options
  /\ path_of var_char "user.name"
  /\ processVariables (fun _ _ => VUndefined) preserving_options
       (variable "user.name" ++ "!") [("user", VObj [("name", VNum 0)])]
     = "0!".
Proof.
  assert (Hb : braces preserving_options) by (split; reflexivity).
  assert (Hp : path_of var_char "user.name")
    by (split; [discriminate | reflexivity]).
  split; [exact Hb | split; [exact Hp |]].
  exact (proj1 (variable_substitution (fun _ _ => VUndefined)
                  preserving_options ∅ "user.name" "!"
                  [("user", VObj [("name", VNum 0)])] 0 Hb Hp)).
Defined.


(** ** Template engine: further properties *)

Lemma split_nonempty (sep : ascii) (s : string) : Str.split sep s <> [].
Proof.
  destruct s as [|c s]; cbn [Str.split]; [discriminate|].
  destruct (Ascii.eqb c sep); [discriminate|].
  destruct (Str.split sep s); discriminate.
Qed.

Lemma split_app (sep : ascii) (a b : string) :
  Str.split sep (a ++ String sep b) = (Str.split sep a ++ Str.split sep b)%list.
Proof.
  induction a as [|x a IH]; cbn [String.append Str.split].
  - now rewrite Ascii.eqb_refl.
  - destruct (Ascii.eqb x sep); [now rewrite IH|].
    rewrite IH. pose proof (split_nonempty sep a) as Hne.
    destruct (Str.split sep a); [congruence | reflexivity].
Qed.

Lemma walk_undefined (inherited : value -> string -> value) (parts : list string) :
  walk inherited parts VUndefined = VUndefined.
Proof. destruct parts; reflexivity. Qed.

Lemma walk_app (inherited : value -> string -> value) (l1 l2 : list string)
    (v : value) :
  walk inherited (l1 ++ l2)%list v = walk inherited l2 (walk inherited l1 v).
Proof.
  revert v. induction l1 as [|part l1 IH]; intros v; cbn [app walk].
  - reflexivity.
  - destruct (Js.is_nullish v); [now rewrite walk_undefined | apply IH].
Qed.

(** A dotted path resolves step by step: [a.b] is [b] resolved in what [a]
    resolves to, and is undefined as soon as [a] resolves to null or
    undefined. *)
Theorem nested_path_composes (inherited : value -> string -> value)
    (obj : value) (a b : string) :
  a <> EmptyString ->
  b <> EmptyString ->
  getNestedValue inherited obj (a ++ String "." b)
  = getNestedValue inherited (getNestedValue inherited obj a) b
  /\ (Js.is_nullish (getNestedValue inherited obj a) = true ->
      getNestedValue inherited obj (a ++ String "." b) = VUndefined).
Proof.
  intros Ha Hb.
  assert (Hcomp : getNestedValue inherited obj (a ++ String "." b)
                  = getNestedValue inherited (getNestedValue inherited obj a) b).
  { unfold getNestedValue.
    destruct a as [|x a]; [congruence|]. destruct b as [|y b]; [congruence|].
    cbn [String.append Str.is_empty].
    change (String x (a ++ String "." (String y b)))
      with (String x a ++ String "." (String y b)).
    now rewrite split_app, walk_app. }
  split; [exact Hcomp|].
  intros Hnull. rewrite Hcomp.
  set (x := getNestedValue inherited obj a) in *. unfold getNestedValue.
  destruct b as [|y b]; [congruence|]. cbn [Str.is_empty].
  pose proof (split_nonempty "." (String y b)) as Hne.
  destruct (Str.split "." (String y b)) as [|part parts]; [congruence|].
  cbn [walk]. now rewrite Hnull.
Qed.

Lemma nested_path_composes_witness :
  let inherited := fun (_ : value) (_ : string) => VUndefined in
  let obj := VObj [("user", VNull); ("api", VObj [("title", VStr "Pets")])] in
  "user" <> EmptyString /\ "name" <> EmptyString
  /\ getNestedValue inherited obj "user.name" = VUndefined
  /\ getNestedValue inherited obj "api.title" = VStr "Pets".
Proof.
  intros inherited obj.
  assert (Ha : "user" <> EmptyString) by discriminate.
  assert (Hb : "name" <> EmptyString) by discriminate.
  split; [exact Ha|]. split; [exact Hb|]. split.
  - exact (proj2 (nested_path_composes inherited obj "user" "name" Ha Hb) eq_refl).
  - reflexivity.
Defined.

(** *** Text that holds no opening delimiter *)

Lemma scan_literal (m : string -> option capture) (s : string) :
  (forall c r, Ascii.eqb c "{" = false -> m (String c r) = None) ->
  Str.forallb (fun c => negb (Ascii.eqb c "{")) s = true ->
  scan m s 0 = List.map Lit (list_ascii_of_string s).
Proof.
  intros Hm. induction s as [|c s IH]; intros Hall; [reflexivity|].
  cbn [Str.forallb] in Hall. apply andb_true_iff in Hall as [Hc Hall].
  apply negb_true_iff in Hc.
  cbn [scan]. rewrite (Hm c s Hc), (IH Hall). reflexivity.
Qed.

Lemma replace_pieces_literal (cb : string -> string -> string -> option string)
    (s : string) :
  replace_pieces cb (List.map Lit (list_ascii_of_string s)) = Some s.
Proof.
  induction s as [|c s IH]; [reflexivity|].
  cbn [list_ascii_of_string List.map replace_pieces]. now rewrite IH.
Qed.

Lemma subst_pieces_literal (cb : string -> string -> string -> string) (s : string) :
  subst_pieces cb (List.map Lit (list_ascii_of_string s)) = s.
Proof.
  induction s as [|c s IH]; [reflexivity|].
  cbn [list_ascii_of_string List.map subst_pieces]. now rewrite IH.
Qed.

Lemma block_match_other (sigil c : ascii) (r : string) :
  Ascii.eqb c "{" = false -> block_match "{" "}" sigil (String c r) = None.
Proof.
  intros Hc. unfold block_match. cbn [String.append].
  rewrite str_prefix_head; [reflexivity|].
  intros <-. now rewrite Ascii.eqb_refl in Hc.
Qed.

Lemma partial_match_other (c : ascii) (r : string) :
  Ascii.eqb c "{" = false -> partial_match "{" "}" (String c r) = None.
Proof.
  intros Hc. unfold partial_match. cbn [String.append].
  rewrite str_prefix_head; [reflexivity|].
  intros <-. now rewrite Ascii.eqb_refl in Hc.
Qed.

Lemma var_match_other (c : ascii) (r : string) :
  Ascii.eqb c "{" = false -> var_match "{" "}" (String c r) = None.
Proof.
  intros Hc. unfold var_match.
  rewrite str_prefix_head; [reflexivity|].
  intros <-. now rewrite Ascii.eqb_refl in Hc.
Qed.

Lemma render_step (inherited : value -> string -> value)
    (o : TemplateEngineOptions) (partials : gmap string string) (n : nat)
    (template : string) (c : list (string * value)) :
  render inherited o partials (S n) template c =
    match stage (enableConditionals o)
            (fun t => processConditionals inherited o n t c) template with
    | Some r1 =>
        match stage (enableLoops o) (fun t => processLoops inherited o n t c) r1 with
        | Some r2 =>
            match stage (enablePartials o)
                    (fun t => processPartials inherited o partials n t c) r2 with
            | Some r3 => Some (processVariables inherited o r3 c)
            | None => None
            end
        | None => None
        end
    | None => None
    end.
Proof. reflexivity. Qed.

(** A template that holds no opening brace is rendered as it is, whatever
    the context, the registered partials and the passes enabled. *)
Theorem plain_text_unchanged (inherited : value -> string -> value)
    (o : TemplateEngineOptions) (partials : gmap string string) (d : nat)
    (template : string) (c : list (string * value)) :
  braces o ->
  Str.forallb (fun ch => negb (Ascii.eqb ch "{")) template = true ->
  render inherited o partials (S (S d)) template c = Some template.
Proof.
  intros [Hs He] Hall.
  assert (Hcond : processConditionals inherited o (S d) template c = Some template).
  { cbn [processConditionals]. unfold replace_all. rewrite Hs, He.
    rewrite (scan_literal _ template (block_match_other "?") Hall).
    apply replace_pieces_literal. }
  assert (Hloop : processLoops inherited o (S d) template c = Some template).
  { cbn [processLoops]. unfold replace_all. rewrite Hs, He.
    rewrite (scan_literal _ template (block_match_other "#") Hall).
    apply replace_pieces_literal. }
  assert (Hpart : processPartials inherited o partials (S d) template c
                  = Some template).
  { unfold processPartials, processPartials_with, replace_all. rewrite Hs, He.
    rewrite (scan_literal _ template partial_match_other Hall).
    apply replace_pieces_literal. }
  assert (Hvar : processVariables inherited o template c = template).
  { unfold processVariables. rewrite Hs, He.
    rewrite (scan_literal _ template var_match_other Hall).
    apply subst_pieces_literal. }
  rewrite render_step. unfold stage.
  destruct (enableConditionals o); rewrite ?Hcond;
    destruct (enableLoops o); rewrite ?Hloop;
    destruct (enablePartials o); rewrite ?Hpart; now rewrite Hvar.
Qed.

Lemma plain_text_unchanged_witness :
  braces default_options
  /\ render (fun _ _ => VUndefined) default_options ∅ 2
       "export const x = 1; // } #a ?b >c" [("a", VNum 1)]
     = Some "export const x = 1; // } #a ?b >c".
Proof.
  assert (Hb : braces default_options) by (split; reflexivity).
  split; [exact Hb|].
  exact (plain_text_unchanged (fun _ _ => VUndefined) default_options ∅ 0
           "export const x = 1; // } #a ?b >c" [("a", VNum 1)] Hb eq_refl).
Defined.

(** *** The scope of a loop iteration *)

Lemma assoc_absent (k : string) (fs : list (string * value)) :
  ~ In k (List.map fst fs) -> Js.assoc k fs = None.
Proof.
  induction fs as [|[k0 v0] fs IH]; intros Hk; [reflexivity|].
  cbn [Js.assoc]. destruct (String.eqb_spec k k0) as [->|Hne].
  - exfalso. apply Hk. now left.
  - apply IH. intros Hin. apply Hk. now right.
Qed.

(** A field of the source object ends up in the target, whatever the target
    held under that name. *)
Lemma assoc_assign_in (k : string) (v : value) (source target : list (string * value)) :
  List.NoDup (List.map fst source) ->
  Js.assoc k source = Some v ->
  Js.assoc k (Js.assign target source) = Some v.
Proof.
  unfold Js.assign. revert target.
  induction source as [|[k0 v0] source IH]; intros target Hnd Hk; [discriminate|].
  cbn [List.map fst] in Hnd. inversion Hnd as [|? ? Hnotin Hnd']; subst.
  cbn [fold_left fst snd]. cbn [Js.assoc] in Hk.
  destruct (String.eqb_spec k k0) as [->|Hne].
  - injection Hk as <-.
    pose proof (assoc_assign_other k0 source (Js.set_prop k0 v0 target)
                  (assoc_absent k0 source Hnotin)) as H.
    unfold Js.assign in H. rewrite H, assoc_set_prop. now rewrite String.eqb_refl.
  - now apply IH.
Qed.

Lemma itemContext_other (c : list (string * value)) (len i : nat) (item : value)
    (k : string) :
  Js.assoc k (Js.object_entries item) = None ->
  ~ In k ["@index"; "@first"; "@last"; "@key"; "."; "this"] ->
  Js.assoc k (itemContext c len i item) = Js.assoc k c.
Proof.
  intros Hitem Hmeta. unfold itemContext.
  rewrite assoc_assign_other by exact Hitem.
  rewrite !assoc_set_prop.
  repeat match goal with
  | |- context [String.eqb k ?s] =>
      destruct (String.eqb_spec k s) as [->|_];
      [exfalso; apply Hmeta; cbn; tauto|]
  end.
  reflexivity.
Qed.



(** The loop binds the item under the names [.] and [this], but only
    [this] can be written in a template: the path [.] is split at its dot
    into two empty names, and resolves to undefined. *)
Theorem dot_alias_unreachable (inherited : value -> string -> value)
    (c : list (string * value)) (len i : nat) (item : value) :
  let scope := VObj (itemContext c len i item) in
  (Js.assoc "." (Js.object_entries item) = None ->
   get_prop inherited scope "." = item)
  /\ (Js.assoc "this" (Js.object_entries item) = None ->
      getNestedValue inherited scope "this" = item)
  /\ (Js.assoc EmptyString c = None ->
      Js.assoc EmptyString (Js.object_entries item) = None ->
      inherited scope EmptyString = VUndefined ->
      getNestedValue inherited scope "." = VUndefined).
Proof.
  intros scope. subst scope. split; [|split].
  - intros Hitem. unfold get_prop, itemContext. cbn [Js.own_prop].
    rewrite assoc_assign_other by exact Hitem.
    rewrite !assoc_set_prop. reflexivity.
  - intros Hitem. unfold getNestedValue. cbn [Str.is_empty].
    change (Str.split "." "this") with ["this"]. cbn [walk Js.is_nullish].
    unfold get_prop, itemContext. cbn [Js.own_prop].
    rewrite assoc_assign_other by exact Hitem.
    rewrite !assoc_set_prop. reflexivity.
  - intros Hc Hitem Hinh. unfold getNestedValue. cbn [Str.is_empty].
    change (Str.split "." ".") with [EmptyString; EmptyString].
    cbn [walk Js.is_nullish]. unfold get_prop at 1. cbn [Js.own_prop].
    rewrite itemContext_other;
      [| exact Hitem | cbn; intuition discriminate].
    rewrite Hc, Hinh. reflexivity.
Qed.

Lemma dot_alias_unreachable_witness :
  let inherited := fun (_ : value) (_ : string) => VUndefined in
  let c := [("items", VArr [VStr "x"; VStr "y"])] in
  Js.assoc EmptyString c = None
  /\ getNestedValue inherited (VObj (itemContext c 2 0 (VStr "x"))) "." = VUndefined
  /\ getNestedValue inherited (VObj (itemContext c 2 0 (VStr "x"))) "this" = VStr "x"
  /\ render inherited default_options ∅ 3 "{#items}[{.}|{this}]{/items}" c
     = Some "[|x][|y]".
Proof.
  intros inherited c.
  split; [reflexivity|]. split; [|split].
  - exact (proj2 (proj2 (dot_alias_unreachable inherited c 2 0 (VStr "x")))
             eq_refl eq_refl eq_refl).
  - exact (proj1 (proj2 (dot_alias_unreachable inherited c 2 0 (VStr "x"))) eq_refl).
  - reflexivity.
Defined.

(** ** Template engine: the passes return *)









Section Totality.

Variable inherited : value -> string -> value.
Variable o : TemplateEngineOptions.




End Totality.
(** C5, as the claim states it, fails: an item that has a field named
    [@first] or [@last] of its own shadows the loop's metadata, here in the
    only iteration of a one-element array. *)
Lemma loop_metadata_shadowed :
  render (fun _ _ => VUndefined) default_options ∅ 4
    "{#items}{@first},{@last}{/items}"
    [("items", VArr [VObj [("@first", VBool false); ("@last", VBool false)]])]
  = Some "false,false".
Proof. reflexivity. Qed.

Lemma assign_snoc (target source : list (string * value)) (k : string) (v : value) :
  Js.assign target (source ++ [(k, v)])%list = Js.set_prop k v (Js.assign target source).
Proof. unfold Js.assign. now rewrite fold_left_app. Qed.

(** What [Object.assign] leaves under a name: the field of the source, its
    last binding when the list binds the name twice, or else what the
    target had. *)
Lemma assoc_assign (k : string) (source target : list (string * value)) :
  Js.assoc k (Js.assign target source)
  = match Js.assoc k (Js.assign [] source) with
    | Some v => Some v
    | None => Js.assoc k target
    end.
Proof.
  induction source as [|[k0 v0] source IH] using rev_ind; [reflexivity|].
  rewrite !assign_snoc, !assoc_set_prop.
  destruct (String.eqb k k0); [reflexivity | exact IH].
Qed.

Lemma mapM_imap {A B : Type} (f : nat * A -> option B) (g : nat -> A -> B)
    (l : list A) :
  (forall i x, f (i, x) = Some (g i x)) ->
  mapM f (imap (fun i x => (i, x)) l) = Some (imap g l).
Proof.
  intros Hf.
  assert (H : forall h : nat -> nat,
            mapM f (imap (fun i x => (h i, x)) l)
            = Some (imap (fun i x => g (h i) x) l)).
  { induction l as [|x l IH]; intros h; [reflexivity|].
    cbn [imap mapM]. rewrite Hf.
    change ((fun i x0 => (h i, x0)) ∘ S) with (fun i (x0 : A) => (h (S i), x0)).
    rewrite (IH (fun i => h (S i))). reflexivity. }
  exact (H (fun i => i)).
Qed.

(** What a name reads in the scope of an iteration: the field the item has
    under that name, or else what the loop binds. *)
Lemma itemContext_read (inherited : value -> string -> value)
    (c : list (string * value)) (len i : nat) (item : value) (k : string) :
  Js.own_prop (VObj (itemContext c len i item)) k
  = match Js.assoc k (Js.assign [] (Js.object_entries item)) with
    | Some v => Some v
    | None =>
        if String.eqb k "this" then Some item
        else if String.eqb k "." then Some item
        else if String.eqb k "@key" then Some (VNum (Z.of_nat i))
        else if String.eqb k "@last" then Some (VBool (Nat.eqb i (len - 1)))
        else if String.eqb k "@first" then Some (VBool (Nat.eqb i 0))
        else if String.eqb k "@index" then Some (VNum (Z.of_nat i))
        else Js.assoc k c
    end.
Proof.
  cbn [Js.own_prop]. unfold itemContext. rewrite assoc_assign.
  now rewrite !assoc_set_prop.
Qed.

(** One iteration over the content [{@first},{@last};]. *)
Lemma iteration_first_last (inherited : value -> string -> value)
    (o : TemplateEngineOptions) (d : nat)
    (c : list (string * value)) (len i : nat) (item : value) :
  braces o ->
  iteration inherited o (S d) "{@first},{@last};" c len (i, item)
  = Some
      ((let v := default (VBool (Nat.eqb i 0))
                   (Js.assoc "@first" (Js.assign [] (Js.object_entries item))) in
        if Js.is_nullish v
        then (if preserveUnmatched o then "{@first}" else EmptyString)
        else Js.to_string v)
       ++ ","
       ++ (let v := default (VBool (Nat.eqb i (len - 1)))
                      (Js.assoc "@last" (Js.assign [] (Js.object_entries item))) in
           if Js.is_nullish v
           then (if preserveUnmatched o then "{@last}" else EmptyString)
           else Js.to_string v)
       ++ ";").
Proof.
  intros [Hs He]. unfold iteration. cbn [fst snd].
  set (scope := itemContext c len i item).
  assert (Hcond : processConditionals inherited o (S d)
                    "{@first},{@last};" scope = Some "{@first},{@last};").
  { cbn [processConditionals]. unfold replace_all. rewrite Hs, He. reflexivity. }
  assert (Hloop : processLoops inherited o (S d)
                    "{@first},{@last};" scope = Some "{@first},{@last};").
  { cbn [processLoops]. unfold replace_all. rewrite Hs, He. reflexivity. }
  rewrite Hcond, Hloop. f_equal.
  assert (Hread : forall k,
            getNestedValue inherited (VObj scope) k
            = if Str.is_empty k then VObj scope
              else walk inherited (Str.split "." k) (VObj scope)) by reflexivity.
  assert (Hscan : scan (var_match "{" "}") "{@first},{@last};" 0
                  = [Hit "{@first}" "@first" EmptyString; Lit ",";
                     Hit "{@last}" "@last" EmptyString; Lit ";"]) by reflexivity.
  unfold processVariables. rewrite Hs, He, Hscan. cbn [subst_pieces].
  change (Str.trim "@first") with "@first". change (Str.trim "@last") with "@last".
  rewrite !Hread. cbn [Str.is_empty].
  change (Str.split "." "@first") with ["@first"].
  change (Str.split "." "@last") with ["@last"].
  cbn [walk Js.is_nullish]. unfold get_prop.
  subst scope. rewrite !(itemContext_read inherited).
  destruct (Js.assoc "@first" (Js.assign [] (Js.object_entries item)));
    destruct (Js.assoc "@last" (Js.assign [] (Js.object_entries item)));
    reflexivity.
Qed.

(** C5, amended. [{#items}{name}{/items}] over two items named a and b
    renders as "ab".  With braces as delimiters the block
    [{#p}{@first},{@last};{/p}] over any array renders, for the item at
    index [i], the item's own [@first] field when it has one and otherwise
    whether [i] is 0, then the item's own [@last] field when it has one and
    otherwise whether [i] is the last index (a field that is null or
    undefined renders as any unmatched variable does).
    In general each iteration runs in the scope [itemContext] builds from
    the index and the length of the array, where a name reads the field
    the item has under it (that is how an object item shadows [@index],
    [@first], [@last], [@key], [.] and [this]) and otherwise what the
    loop binds.  A loop block whose path does not resolve to an array
    renders as the empty string. *)
Theorem loop_rendering (inherited : value -> string -> value)
    (o : TemplateEngineOptions) (partials : gmap string string) (d : nat)
    (c : list (string * value))
    (items : list value) (len i : nat) (item : value)
    (fs : list (string * value)) (k : string) (v : value)
    (p content rest : string) :
  let own := fun (name : string) (x : value) =>
               Js.assoc name (Js.assign [] (Js.object_entries x)) in
  let shown := fun (tag : string) (x : value) =>
                 if Js.is_nullish x
                 then (if preserveUnmatched o then tag else EmptyString)
                 else Js.to_string x in
  render inherited default_options partials (S (S (S d)))
    "{#items}{name}{/items}"
    [("items", VArr [VObj [("name", VStr "a")]; VObj [("name", VStr "b")]])]
  = Some "ab"
  /\ (braces o -> path_of not_brace p ->
      closes_first p "{@first},{@last};" rest ->
      getNestedValue inherited (VObj c) (Str.trim p) = VArr items ->
      processLoops inherited o (S (S d))
        (block "#" p "{@first},{@last};" ++ rest) c
      = option_map
          (String.append
             (Str.concat
                (imap (fun index x =>
                         shown "{@first}"
                           (default (VBool (Nat.eqb index 0)) (own "@first" x))
                         ++ ","
                         ++ shown "{@last}"
                              (default (VBool (Nat.eqb index (List.length items - 1)))
                                 (own "@last" x))
                         ++ ";")
                   items)))
          (processLoops inherited o (S (S d)) rest c))
  /\ (Js.assoc k (Js.object_entries item) = None -> own k item = None)
  /\ (List.NoDup (List.map fst fs) -> Js.assoc k fs = Some v -> own k (VObj fs) = Some v)
  /\ (let scope := VObj (itemContext c len i item) in
      get_prop inherited scope "@index"
      = default (VNum (Z.of_nat i)) (own "@index" item)
      /\ get_prop inherited scope "@first"
         = default (VBool (Nat.eqb i 0)) (own "@first" item)
      /\ get_prop inherited scope "@last"
         = default (VBool (Nat.eqb i (len - 1))) (own "@last" item)
      /\ get_prop inherited scope "@key"
         = default (VNum (Z.of_nat i)) (own "@key" item)
      /\ get_prop inherited scope "." = default item (own "." item)
      /\ get_prop inherited scope "this" = default item (own "this" item))
  /\ (braces o -> path_of not_brace p -> closes_first p content rest ->
      processLoops inherited o (S d) (block "#" p content ++ rest) c
      = followed_by
          (match getNestedValue inherited (VObj c) (Str.trim p) with
           | VArr xs =>
               option_map Str.concat
                 (mapM
                    (fun entry : nat * value =>
                       let scope :=
                         itemContext c (List.length xs) (fst entry) (snd entry) in
                       match processConditionals inherited o d content scope with
                       | Some c1 =>
                           match processLoops inherited o d c1 scope with
                           | Some c2 => Some (processVariables inherited o c2 scope)
                           | None => None
                           end
                       | None => None
                       end)
                    (imap (fun index x => (index, x)) xs))
           | _ => Some EmptyString
           end)
          (processLoops inherited o (S d) rest c))
  /\ (braces o -> path_of not_brace p -> closes_first p content rest ->
      Js.isArray (getNestedValue inherited (VObj c) (Str.trim p)) = false ->
      processLoops inherited o (S d) (block "#" p content ++ rest) c
      = processLoops inherited o (S d) rest c).
Proof.
  intros own shown.
  split; [reflexivity|].
  split.
  { intros Hb Hp Hclose Hitems.
    rewrite (processLoops_block inherited o Hb (S d)) by assumption.
    rewrite Hitems.
    rewrite (mapM_imap _
               (fun index x =>
                  shown "{@first}" (default (VBool (Nat.eqb index 0)) (own "@first" x))
                  ++ ","
                  ++ shown "{@last}"
                       (default (VBool (Nat.eqb index (List.length items - 1)))
                          (own "@last" x))
                  ++ ";")).
    - reflexivity.
    - intros index x. now apply iteration_first_last. }
  split.
  { intros Hnone. subst own. cbn beta.
    now rewrite (assoc_assign_other k (Js.object_entries item) []). }
  split.
  { intros Hnd Hk. subst own. cbn beta. cbn [Js.object_entries].
    now apply assoc_assign_in. }
  split.
  { cbn zeta. unfold get_prop. rewrite !(itemContext_read inherited).
    subst own. cbn beta.
    repeat split;
      match goal with
      | |- context [Js.assoc ?name (Js.assign [] (Js.object_entries item))] =>
          destruct (Js.assoc name (Js.assign [] (Js.object_entries item)));
          reflexivity
      end. }
  split.
  { intros Hb Hp Hclose. now apply processLoops_block. }
  intros Hb Hp Hc Harr.
  rewrite processLoops_block by assumption.
  destruct (getNestedValue inherited (VObj c) (Str.trim p)); try discriminate;
    cbn [followed_by];
    destruct (processLoops inherited o (S d) rest c); reflexivity.
Qed.

Lemma loop_rendering_witness :
  let inherited := fun (_ : value) (_ : string) => VUndefined in
  let mine := VObj [("@first", VStr "mine"); ("name", VStr "a")] in
  let c := [("rows", VArr [mine; VStr "b"; VNum 3])] in
  braces default_options
  /\ path_of not_brace "rows"
  /\ closes_first "rows" "{@first},{@last};" "!"
  /\ getNestedValue inherited (VObj c) (Str.trim "rows") = VArr [mine; VStr "b"; VNum 3]
  /\ processLoops inherited default_options 2
       (block "#" "rows" "{@first},{@last};" ++ "!") c
     = Some "mine,false;false,false;false,true;!".
Proof.
  intros inherited mine c.
  assert (Hp : path_of not_brace "rows") by (split; [discriminate | reflexivity]).
  assert (Hclose : closes_first "rows" "{@first},{@last};" "!") by reflexivity.
  assert (Hitems : getNestedValue inherited (VObj c) (Str.trim "rows")
                   = VArr [mine; VStr "b"; VNum 3]) by reflexivity.
  assert (Hb : braces default_options) by (split; reflexivity).
  split; [exact Hb|].
  split; [exact Hp|]. split; [exact Hclose|]. split; [exact Hitems|].
  rewrite (proj1 (proj2 (loop_rendering inherited default_options ∅ 0 c
                           [mine; VStr "b"; VNum 3] 0 0 VNull [] EmptyString VNull
                           "rows" EmptyString "!")) Hb Hp Hclose Hitems).
  reflexivity.
Defined.


(** ** Document cache *)

Import Parser.

(** The string the fetch path digests is never the reference alone. *)
Lemma digested_strings_differ (u : string) (hs : list (string * string)) :
  u ++ stringify_headers hs <> u.
Proof.
  intros H. apply (f_equal String.length) in H.
  rewrite str_length_app in H. unfold stringify_headers in H.
  cbn [String.append String.length] in H. lia.
Qed.

(** [clearCache(url)] touches one key of each tier only. *)
Lemma clearCache_other_key (u k : string) (w : World) :
  u <> EmptyString ->
  Md5.md5 u <> k ->
  cache (clearCache (Some u) w) !! k = cache w !! k
  /\ cacheDir (clearCache (Some u) w) !! k = cacheDir w !! k.
Proof.
  intros Hu Hk. unfold clearCache. destruct u; [congruence|].
  cbn [Str.is_empty cache cacheDir with_cache with_cacheDir].
  split; now apply lookup_delete_ne.
Qed.

(** C2, evaluated where the code departs from it: the document of
    [http://localhost/api.json] is fetched with the default, empty header
    map and stored under the digest of the reference followed by [{}];
    [clearCache] of the same reference deletes the digest of the reference
    alone, and leaves the entry in both tiers. *)
Theorem clearCache_misses_fetched_entry :
  let o := default_options sample_url in
  let w1 := snd (fetch (sample_env sample_document) o empty_world) in
  getCacheKey o = "c42d1cd66423b6879e3db52d29db1688"
  /\ Md5.md5 sample_url = "c3f72bfd8bdb29ae909a22a2a851190d"
  /\ cache w1 !! getCacheKey o
     = Some {| timestamp := 1005; data := sample_document |}
  /\ cacheDir w1 !! getCacheKey o
     = Some {| mtimeMs := 1005; parsed := Some sample_document |}
  /\ clearCache (Some sample_url) w1 = w1.
Proof. vm_compute. repeat split; reflexivity. Qed.

(** ** Progress reports *)

(** Once [fetchApi] is past its early return, what it reports last is 1,
    whether it returns or throws. *)
Lemma fetchApi_reports_one_last (env : Env)
    (o : OptimizedSwaggerApiParserOptions) (forceRefresh : bool) (st : St) :
  progressCallback o = true ->
  Js.to_boolean (api (snd st)) && negb forceRefresh = false ->
  exists earlier message,
    reports (fst (snd (fetchApi env o forceRefresh st)))
    = (earlier ++ [(1%Q, message)])%list.
Proof.
  intros Hcb Hearly. unfold fetchApi.
  unfold bind at 1. cbn [self]. rewrite Hearly.
  unfold try_catch, bind at 1.
  match goal with
  | |- context [match ?inner st with _ => _ end] => destruct (inner st) as [[u|msg] st1]
  end.
  - unfold bind at 1, reportProgress. rewrite Hcb. cbn.
    eexists _, _. reflexivity.
  - unfold bind at 1, reportProgress. rewrite Hcb. cbn.
    eexists _, _. reflexivity.
Qed.

(** C9, evaluated where the code departs from it: with the default options
    (lazy loading on) and an empty cache, one [fetchApi] call reports 0.6
    before fetching, then 0.3 and 0.5 from the fetch, then 0.7 and 1. *)
Theorem fetchApi_progress_decreases :
  let o := default_options sample_url in
  let w := fst (snd (fetchApi (sample_env sample_document) o false
                       (empty_world, new))) in
  fractions w = [6 # 10; 3 # 10; 5 # 10; 7 # 10; 1]%Q
  /\ non_decreasing (fractions w) = false.
Proof. vm_compute. split; reflexivity. Qed.

(** ** Document cache: how the operations run *)

Section Runs.

Variable env : Env.
Variable o : OptimizedSwaggerApiParserOptions.

Lemma reportProgress_run (fraction : Q) (message : string) (w : World) (p : Instance) :
  reportProgress o fraction message (w, p) = (Ok tt, (reported o fraction message w, p)).
Proof. unfold reportProgress, reported. now destruct (progressCallback o). Qed.

Lemma cache_reported (fraction : Q) (message : string) (w : World) :
  cache (reported o fraction message w) = cache w.
Proof. unfold reported. now destruct (progressCallback o). Qed.

Lemma cacheDir_reported (fraction : Q) (message : string) (w : World) :
  cacheDir (reported o fraction message w) = cacheDir w.
Proof. unfold reported. now destruct (progressCallback o). Qed.

Lemma now_reported (fraction : Q) (message : string) (w : World) :
  now (reported o fraction message w) = now w.
Proof. unfold reported. now destruct (progressCallback o). Qed.

Lemma reads_reported (fraction : Q) (message : string) (w : World) :
  reads (reported o fraction message w) = reads w.
Proof. unfold reported. now destruct (progressCallback o). Qed.

Lemma axios_get_run (ref : string) (hs : list (string * string)) (w : World)
    (p : Instance) :
  axios_get env ref hs (w, p)
  = (match http_get env ref hs with inl msg => Throw msg | inr d => Ok d end,
     (with_read ref (latency env ref) w, p)).
Proof.
  unfold axios_get, bind, set_world, lift. cbn [fst snd].
  now destruct (http_get env ref hs).
Qed.

Lemma read_local_run (ref : string) (w : World) (p : Instance) :
  read_local env ref (w, p)
  = (match read_json_file env ref with inl msg => Throw msg | inr d => Ok d end,
     (with_read ref (latency env ref) w, p)).
Proof.
  unfold read_local, bind, set_world, lift. cbn [fst snd].
  now destruct (read_json_file env ref).
Qed.

(** Probing never throws, leaves both cache tiers and the instance as they
    were, and only adds reads. *)
Lemma probe_run (hs : list (string * string)) (endpoints : list string)
    (w : World) (p : Instance) :
  exists found w' extra,
    probe env o hs endpoints (w, p) = (Ok found, (w', p))
    /\ cache w' = cache w /\ cacheDir w' = cacheDir w
    /\ reads w' = (reads w ++ extra)%list.
Proof.
  revert w. induction endpoints as [|endpoint rest IH]; intros w.
  - exists None, w, []. cbn. now rewrite app_nil_r.
  - cbn [probe]. unfold bind at 1. unfold try_catch. unfold bind at 1.
    rewrite reportProgress_run. unfold bind at 1. rewrite axios_get_run.
    set (w1 := with_read endpoint (latency env endpoint) _).
    assert (H1 : cache w1 = cache w /\ cacheDir w1 = cacheDir w
                 /\ reads w1 = (reads w ++ [endpoint])%list).
    { subst w1. cbn. now rewrite cache_reported, cacheDir_reported, reads_reported. }
    destruct H1 as (Hc1 & Hd1 & Hr1).
    assert (Hnext : exists found w' extra,
               probe env o hs rest (w1, p) = (Ok found, (w', p))
               /\ cache w' = cache w /\ cacheDir w' = cacheDir w
               /\ reads w' = (reads w ++ extra)%list).
    { destruct (IH w1) as (found & w' & extra & -> & Hc & Hd & Hr).
      exists found, w', (endpoint :: extra). rewrite Hc, Hd, Hr, Hr1, <- app_assoc.
      auto. }
    destruct (http_get env endpoint hs) as [msg|d]; [exact Hnext|].
    destruct (looks_like_document d); [|exact Hnext].
    unfold bind at 1. rewrite reportProgress_run.
    exists (Some endpoint), (reported o (2 # 10) ("找到有效的API文档: " ++ endpoint) w1),
      [endpoint].
    cbn [ret]. now rewrite cache_reported, cacheDir_reported, reads_reported.
Qed.

Lemma resolveSwaggerDocUrl_run (u : string) (w : World) (p : Instance) :
  exists resolved w' extra,
    resolveSwaggerDocUrl env o u (w, p) = (Ok resolved, (w', p))
    /\ cache w' = cache w /\ cacheDir w' = cacheDir w
    /\ reads w' = (reads w ++ extra)%list.
Proof.
  unfold resolveSwaggerDocUrl.
  destruct (_ || _); [exists u, w, []; cbn; now rewrite app_nil_r|].
  destruct (_ || _); [|exists u, w, []; cbn; now rewrite app_nil_r].
  unfold bind at 1. rewrite reportProgress_run. unfold bind at 1.
  destruct (probe_run (headers o) (possibleEndpoints u)
              (reported o (1 # 10) "检测到Swagger UI URL，尝试获取API文档地址" w) p)
    as (found & w1 & extra & -> & Hc & Hd & Hr).
  rewrite cache_reported in Hc. rewrite cacheDir_reported in Hd.
  rewrite reads_reported in Hr.
  destruct found as [endpoint|].
  - exists endpoint, w1, extra. auto.
  - unfold bind at 1. rewrite reportProgress_run.
    exists u, (reported o (2 # 10) "未找到有效的API文档，使用原始URL" w1), extra.
    cbn [ret]. now rewrite cache_reported, cacheDir_reported, reads_reported.
Qed.

End Runs.

Section Fetches.

Variable env : Env.
Variable o : OptimizedSwaggerApiParserOptions.

Lemma saveToCache_run (d : value) (w : World) (p : Instance) :
  saveToCache env o d (w, p) = (Ok tt, (stored env o d w, p)).
Proof.
  unfold saveToCache, stored. destruct (useCache o); [|reflexivity].
  cbn [negb]. unfold bind, world, set_world. cbn [fst snd].
  destruct (cache_writable env); reflexivity.
Qed.

(** What lies behind the cache lookup always reads the source, once at
    least, and touches the cache only to store the document it read. *)
Lemma acquire_run (w : World) (p : Instance) :
  exists w1 extra,
    extra <> [] /\ reads w1 = (reads w ++ extra)%list
    /\ cache w1 = cache w /\ cacheDir w1 = cacheDir w
    /\ ((exists msg, acquire env o (w, p) = (Throw msg, (w1, p)))
        \/ (exists d, acquire env o (w, p)
                      = (Ok d,
                         (stored env o d
                            (reported o (5 # 10) "API文档获取成功，保存到缓存" w1),
                          with_rawApiData d p)))).
Proof.
  destruct (acquire env o (w, p)) as [r st] eqn:E.
  unfold acquire in E. unfold bind at 1 in E. rewrite reportProgress_run in E.
  unfold bind at 1 in E.
  destruct (resolveSwaggerDocUrl_run env o (url o)
              (reported o (3 # 10) "开始获取API文档" w) p)
    as (resolved & w0 & extra & Hres & Hc & Hd & Hr).
  rewrite Hres in E. clear Hres.
  rewrite cache_reported in Hc. rewrite cacheDir_reported in Hd.
  rewrite reads_reported in Hr.
  set (w1 := with_read resolved (latency env resolved) w0) in *.
  assert (H1 : (extra ++ [resolved])%list <> []
               /\ reads w1 = (reads w ++ extra ++ [resolved])%list
               /\ cache w1 = cache w /\ cacheDir w1 = cacheDir w).
  { subst w1. cbn. rewrite Hr, <- app_assoc. repeat split; auto.
    now destruct extra. }
  destruct H1 as (Hne & Hr1 & Hc1 & Hd1).
  exists w1, (extra ++ [resolved])%list. repeat split; auto.
  unfold bind at 1 in E. unfold try_catch in E.
  destruct (String.prefix "http" resolved).
  - rewrite axios_get_run in E. fold w1 in E.
    destruct (http_get env resolved (headers o)) as [msg|d].
    + left. eexists. cbn in E. rewrite <- E. reflexivity.
    + right. exists d. unfold bind at 1 in E. rewrite reportProgress_run in E.
      unfold bind at 1 in E. rewrite saveToCache_run in E.
      cbn in E. rewrite <- E. reflexivity.
  - rewrite read_local_run in E. fold w1 in E.
    destruct (read_json_file env resolved) as [msg|d].
    + left. eexists. cbn in E. rewrite <- E. reflexivity.
    + right. exists d. unfold bind at 1 in E. rewrite reportProgress_run in E.
      unfold bind at 1 in E. rewrite saveToCache_run in E.
      cbn in E. rewrite <- E. reflexivity.
Qed.

Hypothesis Hcache : useCache o = true.

(** A fresh entry of the in-memory tier is what the lookup returns. *)
Lemma getFromCache_memory (w : World) (p : Instance) (item : CacheItem) :
  cache w !! getCacheKey o = Some item ->
  (now w - timestamp item < cacheTTL o)%Z ->
  getFromCache o (w, p)
  = (Ok (data item), (reported o (1 # 10) "从内存缓存加载数据" w, p)).
Proof.
  intros Hitem Hage. unfold getFromCache. rewrite Hcache. cbn [negb].
  unfold bind at 1. cbn [world fst]. rewrite Hitem.
  apply Z.ltb_lt in Hage. rewrite Hage.
  unfold bind. now rewrite reportProgress_run.
Qed.

(** The same for the on-disk tier, when the in-memory tier has no fresh
    entry; the document is copied into the in-memory tier. *)
Lemma getFromCache_disk (w : World) (p : Instance) (file : CacheFile) (d : value) :
  (forall item, cache w !! getCacheKey o = Some item ->
     (cacheTTL o <= now w - timestamp item)%Z) ->
  cacheDir w !! getCacheKey o = Some file ->
  (now w - mtimeMs file < cacheTTL o)%Z ->
  parsed file = Some d ->
  getFromCache o (w, p)
  = (Ok d,
     (with_cache (<[getCacheKey o := {| timestamp := now w; data := d |}]> (cache w))
        (reported o (1 # 10) "从文件缓存加载数据" w), p)).
Proof.
  intros Hmem Hfile Hage Hparsed. unfold getFromCache. rewrite Hcache. cbn [negb].
  unfold bind at 1. cbn [world fst].
  assert (Hstale : match cache w !! getCacheKey o with
                   | Some cachedItem =>
                       if (now w - timestamp cachedItem <? cacheTTL o)%Z
                       then Some (data cachedItem) else None
                   | None => None
                   end = None).
  { destruct (cache w !! getCacheKey o) as [item|] eqn:E; [|reflexivity].
    specialize (Hmem item eq_refl). apply Z.ltb_ge in Hmem. now rewrite Hmem. }
  rewrite Hstale, Hfile. apply Z.ltb_lt in Hage. rewrite Hage, Hparsed.
  unfold bind at 1. rewrite reportProgress_run.
  unfold bind, world, set_world. cbn [fst snd ret].
  now rewrite now_reported, cache_reported.
Qed.

(** An entry as old as the time to live, or older, is not returned: with no
    fresh entry in either tier the lookup misses and leaves the state as it
    was. *)
Lemma getFromCache_expired (w : World) (p : Instance) :
  (forall item, cache w !! getCacheKey o = Some item ->
     (cacheTTL o <= now w - timestamp item)%Z) ->
  (forall file, cacheDir w !! getCacheKey o = Some file ->
     (cacheTTL o <= now w - mtimeMs file)%Z) ->
  getFromCache o (w, p) = (Ok VNull, (w, p)).
Proof.
  intros Hmem Hdisk. unfold getFromCache. rewrite Hcache. cbn [negb].
  unfold bind at 1. cbn [world fst].
  destruct (cache w !! getCacheKey o) as [item|] eqn:E.
  - specialize (Hmem item eq_refl). apply Z.ltb_ge in Hmem. rewrite Hmem.
    destruct (cacheDir w !! getCacheKey o) as [file|] eqn:F; [|reflexivity].
    specialize (Hdisk file eq_refl). apply Z.ltb_ge in Hdisk. now rewrite Hdisk.
  - destruct (cacheDir w !! getCacheKey o) as [file|] eqn:F; [|reflexivity].
    specialize (Hdisk file eq_refl). apply Z.ltb_ge in Hdisk. now rewrite Hdisk.
Qed.

(** A parser that holds no document yet and finds no fresh entry goes to
    the source. *)
Lemma fetchRawApiData_miss (w : World) (p : Instance) :
  Js.to_boolean (rawApiData p) = false ->
  (forall item, cache w !! getCacheKey o = Some item ->
     (cacheTTL o <= now w - timestamp item)%Z) ->
  (forall file, cacheDir w !! getCacheKey o = Some file ->
     (cacheTTL o <= now w - mtimeMs file)%Z) ->
  fetchRawApiData env o (w, p) = acquire env o (w, p).
Proof.
  intros Hp Hmem Hdisk. unfold fetchRawApiData.
  unfold bind at 1. cbn [self snd]. rewrite Hp.
  unfold bind at 1. rewrite getFromCache_expired by assumption.
  reflexivity.
Qed.

(** A parser that holds no document yet returns a fresh, truthy entry of
    the in-memory tier, and reads nothing. *)
Lemma fetchRawApiData_memory (w : World) (p : Instance) (item : CacheItem) :
  Js.to_boolean (rawApiData p) = false ->
  cache w !! getCacheKey o = Some item ->
  (now w - timestamp item < cacheTTL o)%Z ->
  Js.to_boolean (data item) = true ->
  fetchRawApiData env o (w, p)
  = (Ok (data item),
     (reported o (1 # 10) "从内存缓存加载数据" w, with_rawApiData (data item) p)).
Proof.
  intros Hp Hitem Hage Hd. unfold fetchRawApiData.
  unfold bind at 1. cbn [self snd]. rewrite Hp.
  unfold bind at 1. rewrite (getFromCache_memory w p item) by assumption.
  rewrite Hd. reflexivity.
Qed.

Lemma fetchRawApiData_disk (w : World) (p : Instance) (file : CacheFile) (d : value) :
  Js.to_boolean (rawApiData p) = false ->
  (forall item, cache w !! getCacheKey o = Some item ->
     (cacheTTL o <= now w - timestamp item)%Z) ->
  cacheDir w !! getCacheKey o = Some file ->
  (now w - mtimeMs file < cacheTTL o)%Z ->
  parsed file = Some d ->
  Js.to_boolean d = true ->
  fetchRawApiData env o (w, p)
  = (Ok d,
     (with_cache (<[getCacheKey o := {| timestamp := now w; data := d |}]> (cache w))
        (reported o (1 # 10) "从文件缓存加载数据" w), with_rawApiData d p)).
Proof.
  intros Hp Hmem Hfile Hage Hparsed Hd. unfold fetchRawApiData.
  unfold bind at 1. cbn [self snd]. rewrite Hp.
  unfold bind at 1. rewrite (getFromCache_disk w p file d) by assumption.
  rewrite Hd. reflexivity.
Qed.

End Fetches.

Lemma fetch_run (env : Env) (o : OptimizedSwaggerApiParserOptions) (w w' : World)
    (r : result value) (p : Instance) :
  fetchRawApiData env o (w, new) = (r, (w', p)) -> fetch env o w = (r, w').
Proof. intros H. unfold fetch. now rewrite H. Qed.

(** C3, as the claim states it, fails twice.  A document that is falsy (here
    the empty body of a response) is stored, and found again by the second
    fetch within the time to live, but then discarded: the second fetch
    reads the source again.  And a parser that holds a document returns it
    without looking at the cache, however old the entry has become. *)
Lemma cached_document_fetched_again :
  let o := default_options sample_url in
  (let env := sample_env (VStr EmptyString) in
   let w1 := snd (fetch env o empty_world) in
   fst (fetch env o empty_world) = Ok (VStr EmptyString)
   /\ cache w1 !! getCacheKey o
      = Some {| timestamp := now w1; data := VStr EmptyString |}
   /\ reads w1 = [sample_url]
   /\ reads (snd (fetch env o w1)) = [sample_url; sample_url])
  /\ (let env := sample_env sample_document in
      let st1 := snd (fetchRawApiData env o (empty_world, new)) in
      let later := (with_now (now (fst st1) + 2 * cacheTTL o) (fst st1), snd st1) in
      cache (fst later) !! getCacheKey o
      = Some {| timestamp := now (fst st1); data := sample_document |}
      /\ fetchRawApiData env o later = (Ok sample_document, later)).
Proof. vm_compute. repeat split; reflexivity. Qed.

Lemma reads_stored (env : Env) (o : OptimizedSwaggerApiParserOptions) (d : value)
    (w : World) :
  reads (stored env o d w) = reads w.
Proof. unfold stored. now destruct (useCache o). Qed.

Lemma acquire_reads (env : Env) (o : OptimizedSwaggerApiParserOptions) (w : World)
    (p : Instance) :
  exists extra,
    extra <> [] /\ reads (fst (snd (acquire env o (w, p)))) = (reads w ++ extra)%list.
Proof.
  destruct (acquire_run env o w p) as (w1 & extra & Hne & Hr & _ & _ & Hrun).
  exists extra. split; [exact Hne|].
  destruct Hrun as [[msg ->]|[d ->]]; cbn [fst snd]; [exact Hr|].
  now rewrite reads_stored, reads_reported.
Qed.

(** Whatever the lookup returns comes from an entry younger than the time
    to live, and the file is only consulted when the in-memory tier has no
    such entry. *)
Lemma getFromCache_fresh_only (o : OptimizedSwaggerApiParserOptions) (w : World)
    (p : Instance) (v : value) :
  useCache o = true ->
  fst (getFromCache o (w, p)) = Ok v ->
  v = VNull
  \/ (exists item, cache w !! getCacheKey o = Some item
                   /\ (now w - timestamp item < cacheTTL o)%Z /\ v = data item)
  \/ ((forall item, cache w !! getCacheKey o = Some item ->
         (cacheTTL o <= now w - timestamp item)%Z)
      /\ exists file, cacheDir w !! getCacheKey o = Some file
                      /\ (now w - mtimeMs file < cacheTTL o)%Z
                      /\ parsed file = Some v).
Proof.
  intros Hcache.
  destruct (cache w !! getCacheKey o) as [item|] eqn:Hitem.
  - destruct (Z.ltb_spec (now w - timestamp item) (cacheTTL o)) as [Hfresh|Hstale].
    + rewrite (getFromCache_memory o Hcache w p item Hitem Hfresh). cbn [fst].
      intros [= <-]. right. left. eauto.
    + assert (Hmem : forall it, Some item = Some it ->
                (cacheTTL o <= now w - timestamp it)%Z) by (now intros it [= <-]).
      destruct (cacheDir w !! getCacheKey o) as [file|] eqn:Hfile.
      * destruct (Z.ltb_spec (now w - mtimeMs file) (cacheTTL o)) as [Hf|Hs].
        -- destruct (parsed file) as [d|] eqn:Hparsed.
           ++ rewrite (getFromCache_disk o Hcache w p file d); auto;
                [|now rewrite Hitem].
              cbn [fst]. intros [= <-]. right. right. split; [exact Hmem|]. eauto.
           ++ unfold getFromCache. rewrite Hcache. cbn [negb].
              unfold bind at 1. cbn [world fst]. rewrite Hitem.
              apply Z.ltb_ge in Hstale. rewrite Hstale, Hfile.
              apply Z.ltb_lt in Hf. rewrite Hf, Hparsed.
              unfold bind. rewrite reportProgress_run. cbn [ret fst].
              intros [= <-]. now left.
        -- rewrite (getFromCache_expired o Hcache w p).
           ++ cbn [fst]. intros [= <-]. now left.
           ++ now rewrite Hitem.
           ++ rewrite Hfile. now intros f [= <-].
      * rewrite (getFromCache_expired o Hcache w p).
        -- cbn [fst]. intros [= <-]. now left.
        -- now rewrite Hitem.
        -- rewrite Hfile. discriminate.
  - destruct (cacheDir w !! getCacheKey o) as [file|] eqn:Hfile.
    + destruct (Z.ltb_spec (now w - mtimeMs file) (cacheTTL o)) as [Hf|Hs].
      * destruct (parsed file) as [d|] eqn:Hparsed.
        -- rewrite (getFromCache_disk o Hcache w p file d); auto;
             [|rewrite Hitem; discriminate].
           cbn [fst]. intros [= <-]. right. right.
           split; [discriminate|]. eauto.
        -- unfold getFromCache. rewrite Hcache. cbn [negb].
           unfold bind at 1. cbn [world fst]. rewrite Hitem, Hfile.
           apply Z.ltb_lt in Hf. rewrite Hf, Hparsed.
           unfold bind. rewrite reportProgress_run. cbn [ret fst].
           intros [= <-]. now left.
      * rewrite (getFromCache_expired o Hcache w p).
        -- cbn [fst]. intros [= <-]. now left.
        -- rewrite Hitem. discriminate.
        -- rewrite Hfile. now intros f [= <-].
    + rewrite (getFromCache_expired o Hcache w p).
      * cbn [fst]. intros [= <-]. now left.
      * rewrite Hitem. discriminate.
      * rewrite Hfile. discriminate.
Qed.

(** A fresh entry whose document is falsy is looked up and then dropped:
    the fetch goes on to the source. *)
Lemma fetchRawApiData_falsy (env : Env) (o : OptimizedSwaggerApiParserOptions)
    (w : World) (p : Instance) (item : CacheItem) :
  useCache o = true ->
  Js.to_boolean (rawApiData p) = false ->
  cache w !! getCacheKey o = Some item ->
  (now w - timestamp item < cacheTTL o)%Z ->
  Js.to_boolean (data item) = false ->
  fetchRawApiData env o (w, p)
  = acquire env o (reported o (1 # 10) "从内存缓存加载数据" w, p).
Proof.
  intros Hcache Hp Hitem Hage Hd. unfold fetchRawApiData.
  unfold bind at 1. cbn [self snd]. rewrite Hp.
  unfold bind at 1. rewrite (getFromCache_memory o Hcache w p item) by assumption.
  now rewrite Hd.
Qed.

Lemma fetchRawApiData_held (env : Env) (o : OptimizedSwaggerApiParserOptions)
    (w : World) (p : Instance) :
  Js.to_boolean (rawApiData p) = true ->
  fetchRawApiData env o (w, p) = (Ok (rawApiData p), (w, p)).
Proof.
  intros Hp. unfold fetchRawApiData. unfold bind at 1. cbn [self snd].
  now rewrite Hp.
Qed.

(** Two fetches in a row: the first finds no fresh entry and goes to the
    source, the second finds what the first stored. *)
Lemma fetch_twice (env : Env) (o : OptimizedSwaggerApiParserOptions) (w w1 : World)
    (d : value) (elapsed : Z) :
  useCache o = true ->
  (forall item, cache w !! getCacheKey o = Some item ->
     (cacheTTL o <= now w - timestamp item)%Z) ->
  (forall file, cacheDir w !! getCacheKey o = Some file ->
     (cacheTTL o <= now w - mtimeMs file)%Z) ->
  fetch env o w = (Ok d, w1) ->
  Js.to_boolean d = true ->
  (elapsed < cacheTTL o)%Z ->
  (exists w2,
     fetch env o (with_now (now w1 + elapsed) w1) = (Ok d, w2)
     /\ reads w2 = reads w1)
  /\ (cache_writable env = true ->
      exists w2,
        fetch env o (with_cache ∅ (with_now (now w1 + elapsed) w1)) = (Ok d, w2)
        /\ reads w2 = reads w1).
Proof.
  intros Hcache Hmem Hdisk Hfetch Hd Hlt.
  assert (Hmiss : fetchRawApiData env o (w, new) = acquire env o (w, new))
    by (now apply fetchRawApiData_miss).
  destruct (acquire_run env o w new)
    as (w0 & extra & Hne & Hr & _ & _ & Hrun).
  destruct Hrun as [[msg Hrun]|[d' Hrun]]; rewrite <- Hmiss in Hrun;
    rewrite (fetch_run _ _ _ _ _ _ Hrun) in Hfetch; [discriminate|].
  injection Hfetch as -> <-.
  set (w5 := reported o (5 # 10) "API文档获取成功，保存到缓存" w0).
  assert (Hnow : now (stored env o d w5) = now w5)
    by (unfold stored; now rewrite Hcache).
  assert (Hitem : cache (stored env o d w5) !! getCacheKey o
                  = Some {| timestamp := now w5; data := d |}).
  { unfold stored. rewrite Hcache. cbn. apply lookup_insert_eq. }
  assert (Hreads : forall msg w', reads w' = reads (stored env o d w5) ->
            reads (reported o (1 # 10) msg w') = reads (stored env o d w5))
    by (intros; now rewrite reads_reported).
  split.
  + eexists. split.
    * eapply fetch_run.
      apply (fetchRawApiData_memory env o Hcache _ new
               {| timestamp := now w5; data := d |});
        [reflexivity | exact Hitem | cbn; lia | exact Hd].
    * now apply Hreads.
  + intros Hw. eexists. split.
    * eapply fetch_run.
      apply (fetchRawApiData_disk env o Hcache _ new
               {| mtimeMs := now w5; parsed := Some d |} d);
        [reflexivity | | | cbn; lia | reflexivity | exact Hd].
      -- intros item Hitem'. cbn in Hitem'. rewrite lookup_empty in Hitem'.
         discriminate.
      -- unfold stored. rewrite Hcache, Hw. cbn. apply lookup_insert_eq.
    * cbn. now apply Hreads.
Qed.

(** C3, amended.  With caching enabled, what the cache lookup returns is
    null or the document of an entry younger than the time to live: a fresh
    in-memory entry first, and, when the in-memory entry is as old as the
    time to live or missing, a fresh file that parses; an entry as old as
    the time to live is never returned, whatever the other tier holds.  A
    parser that holds no document yet returns a fresh, truthy cached
    document without reading the source; it goes to the source, which takes
    at least one read, when neither tier has a fresh entry, and also when
    the fresh entry holds a falsy document.  A parser that holds a document
    returns it whatever the cache holds.  After a fetch that found no fresh
    entry and returned a truthy document, a second fetch of the same
    reference less than the time to live later returns the same document
    and reads nothing, from the in-memory tier or, in a process whose
    in-memory tier is empty, from the on-disk tier. *)
Theorem cache_time_to_live (env : Env) (o : OptimizedSwaggerApiParserOptions)
    (w w1 : World) (p : Instance) (item : CacheItem) (file : CacheFile)
    (d v : value) (elapsed : Z) :
  useCache o = true ->
  let key := getCacheKey o in
  let memory_stale :=
    forall it, cache w !! key = Some it -> (cacheTTL o <= now w - timestamp it)%Z in
  let disk_stale :=
    forall f, cacheDir w !! key = Some f -> (cacheTTL o <= now w - mtimeMs f)%Z in
  let memory_hit := reported o (1 # 10) "从内存缓存加载数据" w in
  let disk_hit :=
    with_cache (<[key := {| timestamp := now w; data := d |}]> (cache w))
      (reported o (1 # 10) "从文件缓存加载数据" w) in
  (fst (getFromCache o (w, p)) = Ok v ->
   v = VNull
   \/ (exists it, cache w !! key = Some it
                  /\ (now w - timestamp it < cacheTTL o)%Z /\ v = data it)
   \/ (memory_stale
       /\ exists f, cacheDir w !! key = Some f
                    /\ (now w - mtimeMs f < cacheTTL o)%Z /\ parsed f = Some v))
  /\ (memory_stale -> disk_stale -> getFromCache o (w, p) = (Ok VNull, (w, p)))
  /\ (cache w !! key = Some item -> (now w - timestamp item < cacheTTL o)%Z ->
      getFromCache o (w, p) = (Ok (data item), (memory_hit, p)))
  /\ (memory_stale -> cacheDir w !! key = Some file ->
      (now w - mtimeMs file < cacheTTL o)%Z -> parsed file = Some d ->
      getFromCache o (w, p) = (Ok d, (disk_hit, p)))
  /\ (Js.to_boolean (rawApiData p) = false ->
      (memory_stale -> disk_stale ->
       fetchRawApiData env o (w, p) = acquire env o (w, p))
      /\ (cache w !! key = Some item -> (now w - timestamp item < cacheTTL o)%Z ->
          Js.to_boolean (data item) = true ->
          fetchRawApiData env o (w, p)
          = (Ok (data item), (memory_hit, with_rawApiData (data item) p)))
      /\ (memory_stale -> cacheDir w !! key = Some file ->
          (now w - mtimeMs file < cacheTTL o)%Z -> parsed file = Some d ->
          Js.to_boolean d = true ->
          fetchRawApiData env o (w, p) = (Ok d, (disk_hit, with_rawApiData d p)))
      /\ (cache w !! key = Some item -> (now w - timestamp item < cacheTTL o)%Z ->
          Js.to_boolean (data item) = false ->
          fetchRawApiData env o (w, p) = acquire env o (memory_hit, p)))
  /\ (Js.to_boolean (rawApiData p) = true ->
      fetchRawApiData env o (w, p) = (Ok (rawApiData p), (w, p)))
  /\ reads memory_hit = reads w
  /\ reads disk_hit = reads w
  /\ (exists extra,
        extra <> []
        /\ reads (fst (snd (acquire env o (w, p)))) = (reads w ++ extra)%list)
  /\ (memory_stale -> disk_stale ->
      fetch env o w = (Ok d, w1) -> Js.to_boolean d = true ->
      (elapsed < cacheTTL o)%Z ->
      (exists w2,
         fetch env o (with_now (now w1 + elapsed) w1) = (Ok d, w2)
         /\ reads w2 = reads w1)
      /\ (cache_writable env = true ->
          exists w2,
            fetch env o (with_cache ∅ (with_now (now w1 + elapsed) w1)) = (Ok d, w2)
            /\ reads w2 = reads w1)).
Proof.
  intros Hcache key memory_stale disk_stale memory_hit disk_hit.
  subst key memory_stale disk_stale memory_hit disk_hit.
  split; [now apply getFromCache_fresh_only|].
  split; [now apply getFromCache_expired|].
  split; [now apply getFromCache_memory|].
  split; [now apply getFromCache_disk|].
  split.
  { intros Hp. split; [now apply fetchRawApiData_miss|].
    split; [now apply fetchRawApiData_memory|].
    split; [now apply fetchRawApiData_disk|].
    now apply fetchRawApiData_falsy. }
  split; [apply fetchRawApiData_held|].
  split; [apply reads_reported|].
  split; [cbn [reads with_cache]; apply reads_reported|].
  split; [apply acquire_reads|].
  intros Hmem Hdisk. now apply fetch_twice.
Qed.

Lemma cache_time_to_live_witness :
  let env := sample_env sample_document in
  let o := default_options sample_url in
  let old := VObj [("openapi", VStr "2.0")] in
  let kept := VObj [("openapi", VStr "3.1.0")] in
  let stale := {| timestamp := 0; data := old |} in
  let stale_file := {| mtimeMs := 0; parsed := Some old |} in
  let fresh_file := {| mtimeMs := 5000000; parsed := Some kept |} in
  let w := with_now 5000001
             (with_cacheDir {[ getCacheKey o := stale_file ]}
                (with_cache {[ getCacheKey o := stale ]} empty_world)) in
  let w' := with_cacheDir {[ getCacheKey o := fresh_file ]} w in
  let w1 := snd (fetch env o w) in
  useCache o = true
  /\ cache w !! getCacheKey o = Some stale
  /\ (cacheTTL o <= now w - timestamp stale)%Z
  /\ cacheDir w !! getCacheKey o = Some stale_file
  /\ (cacheTTL o <= now w - mtimeMs stale_file)%Z
  /\ getFromCache o (w, new) = (Ok VNull, (w, new))
  /\ fetchRawApiData env o (w, new) = acquire env o (w, new)
  /\ fetch env o w = (Ok sample_document, w1)
  /\ (exists w2,
        fetch env o (with_now (now w1 + 3599999)%Z w1) = (Ok sample_document, w2)
        /\ reads w2 = reads w1)
  /\ cache w' !! getCacheKey o = Some stale
  /\ fst (fetchRawApiData env o (w', new)) = Ok kept.
Proof.
  intros env o old kept stale stale_file fresh_file w w' w1.
  assert (Hitem : cache w !! getCacheKey o = Some stale)
    by (cbn; apply lookup_singleton_eq).
  assert (Hfile : cacheDir w !! getCacheKey o = Some stale_file)
    by (cbn; apply lookup_singleton_eq).
  assert (Hmem : forall it, cache w !! getCacheKey o = Some it ->
            (cacheTTL o <= now w - timestamp it)%Z)
    by (intros it H; rewrite Hitem in H; injection H as <-; cbn; lia).
  assert (Hdisk : forall f, cacheDir w !! getCacheKey o = Some f ->
            (cacheTTL o <= now w - mtimeMs f)%Z)
    by (intros f H; rewrite Hfile in H; injection H as <-; cbn; lia).
  assert (Hfetch : fetch env o w = (Ok sample_document, w1))
    by (vm_compute; reflexivity).
  assert (Hlt : (3599999 < cacheTTL o)%Z) by (cbn; lia).
  assert (Hitem' : cache w' !! getCacheKey o = Some stale)
    by (cbn; apply lookup_singleton_eq).
  assert (Hmem' : forall it, cache w' !! getCacheKey o = Some it ->
            (cacheTTL o <= now w' - timestamp it)%Z)
    by (intros it H; rewrite Hitem' in H; injection H as <-; cbn; lia).
  assert (Hfile' : cacheDir w' !! getCacheKey o = Some fresh_file)
    by (cbn; apply lookup_singleton_eq).
  assert (Hfresh' : (now w' - mtimeMs fresh_file < cacheTTL o)%Z) by (cbn; lia).
  pose proof (cache_time_to_live env o w w1 new stale stale_file sample_document
                VNull 3599999%Z eq_refl)
    as (_ & Hnull & _ & _ & Hfetches & _ & _ & _ & _ & Htwice).
  pose proof (cache_time_to_live env o w' w1 new stale fresh_file kept
                VNull 3599999%Z eq_refl)
    as (_ & _ & _ & _ & Hfetches' & _).
  split; [reflexivity|]. split; [exact Hitem|]. split; [cbn; lia|].
  split; [exact Hfile|]. split; [cbn; lia|].
  split; [exact (Hnull Hmem Hdisk)|].
  split; [exact (proj1 (Hfetches eq_refl) Hmem Hdisk)|].
  split; [exact Hfetch|].
  split; [exact (proj1 (Htwice Hmem Hdisk Hfetch eq_refl Hlt))|].
  split; [exact Hitem'|].
  rewrite (proj1 (proj2 (proj2 (Hfetches' eq_refl))) Hmem' Hfile' Hfresh' eq_refl eq_refl).
  reflexivity.
Defined.

(** ** Document cache and fetch: further properties *)

(** [clearCache(url)] with a non-empty reference deletes the digest of the
    reference from both tiers and leaves every other key as it was;
    [clearCache('')] clears everything, as [clearCache()] does. *)
Theorem clearCache_scope (u k : string) (w : World) :
  (u <> EmptyString ->
   cache (clearCache (Some u) w) !! Md5.md5 u = None
   /\ cacheDir (clearCache (Some u) w) !! Md5.md5 u = None
   /\ (Md5.md5 u <> k ->
       cache (clearCache (Some u) w) !! k = cache w !! k
       /\ cacheDir (clearCache (Some u) w) !! k = cacheDir w !! k))
  /\ clearCache (Some EmptyString) w = clearCache None w
  /\ cache (clearCache None w) = ∅
  /\ cacheDir (clearCache None w) = ∅.
Proof.
  split; [|repeat split].
  intros Hu. unfold clearCache. destruct u; [congruence|].
  cbn [Str.is_empty cache cacheDir with_cache with_cacheDir].
  split; [apply lookup_delete_eq|]. split; [apply lookup_delete_eq|].
  intros Hk. split; now apply lookup_delete_ne.
Qed.

Lemma clearCache_scope_witness :
  let item := {| timestamp := 0; data := VNull |} in
  let w := with_cache {[ Md5.md5 "a" := item; Md5.md5 "b" := item ]} empty_world in
  "a" <> EmptyString /\ Md5.md5 "a" <> Md5.md5 "b"
  /\ cache (clearCache (Some "a") w) !! Md5.md5 "a" = None
  /\ cache (clearCache (Some "a") w) !! Md5.md5 "b" = Some item.
Proof.
  intros item w.
  assert (Ha : "a" <> EmptyString) by discriminate.
  assert (Hab : Md5.md5 "a" <> Md5.md5 "b") by (vm_compute; discriminate).
  split; [exact Ha|]. split; [exact Hab|].
  destruct (proj1 (clearCache_scope "a" (Md5.md5 "b") w) Ha) as (Hgone & _ & Hother).
  split; [exact Hgone|].
  rewrite (proj1 (Hother Hab)). vm_compute. reflexivity.
Defined.

(** The key of a parser is the digest of its reference followed by the JSON
    text of its headers, which is never the reference alone: the string
    [clearCache(url)] digests is a different one, for every reference and
    every header map; with no headers it lacks the final [{}]. *)
Theorem cache_key_digests_headers (o : OptimizedSwaggerApiParserOptions) :
  url o ++ stringify_headers (headers o) <> url o
  /\ (headers o = [] -> getCacheKey o = Md5.md5 (url o ++ "{}")).
Proof.
  split; [apply digested_strings_differ|].
  intros Hh. unfold getCacheKey. now rewrite Hh.
Qed.

Lemma cache_key_digests_headers_witness :
  headers (default_options sample_url) = []
  /\ getCacheKey (default_options sample_url)
     = Md5.md5 "http://localhost/api.json{}".
Proof.
  split; [reflexivity|].
  exact (proj2 (cache_key_digests_headers (default_options sample_url)) eq_refl).
Defined.

(** With caching disabled a fetch neither reads nor writes the cache: both
    tiers are after the call what they were before it, whether the call
    returns or throws. *)
Theorem cache_disabled_untouched (env : Env) (o : OptimizedSwaggerApiParserOptions)
    (w : World) (p : Instance) :
  useCache o = false ->
  cache (fst (snd (fetchRawApiData env o (w, p)))) = cache w
  /\ cacheDir (fst (snd (fetchRawApiData env o (w, p)))) = cacheDir w
  /\ (Js.to_boolean (rawApiData p) = false ->
      fetchRawApiData env o (w, p) = acquire env o (w, p)).
Proof.
  intros Hoff.
  assert (Hmiss : Js.to_boolean (rawApiData p) = false ->
                  fetchRawApiData env o (w, p) = acquire env o (w, p)).
  { intros Hp. unfold fetchRawApiData. unfold bind at 1. cbn [self snd].
    rewrite Hp. unfold bind at 1. unfold getFromCache. rewrite Hoff. reflexivity. }
  destruct (Js.to_boolean (rawApiData p)) eqn:Hp.
  - assert (E : fetchRawApiData env o (w, p) = (Ok (rawApiData p), (w, p))).
    { unfold fetchRawApiData. unfold bind at 1. cbn [self snd]. now rewrite Hp. }
    rewrite E. repeat split; discriminate.
  - rewrite (Hmiss eq_refl).
    destruct (acquire_run env o w p) as (w1 & extra & _ & _ & Hc & Hd & Hrun).
    destruct Hrun as [[msg ->]|[d ->]]; cbn [fst snd].
    + auto.
    + unfold stored. rewrite Hoff.
      rewrite cache_reported, cacheDir_reported. auto.
Qed.

Lemma cache_disabled_untouched_witness :
  let o := {| url := sample_url; headers := []; skipValidation := false;
              useCache := false; cacheTTL := 3600000; lazyLoading := true;
              progressCallback := false |} in
  useCache o = false
  /\ cache (fst (snd (fetchRawApiData (sample_env sample_document) o
                        (empty_world, new)))) = ∅
  /\ fetchRawApiData (sample_env sample_document) o (empty_world, new)
     = acquire (sample_env sample_document) o (empty_world, new).
Proof.
  intros o. split; [reflexivity|].
  pose proof (cache_disabled_untouched (sample_env sample_document) o
                empty_world new eq_refl) as (Hc & _ & Hmiss).
  split; [exact Hc | exact (Hmiss eq_refl)].
Defined.

(** A hit in the on-disk tier copies the document into the in-memory tier
    stamped with the time of the lookup, not with the age of the file: from
    then on the in-memory entry is served for a full time to live, however
    old the file has become. *)
Theorem disk_hit_restamps (o : OptimizedSwaggerApiParserOptions) (w : World)
    (p : Instance) (file : CacheFile) (d : value) (elapsed : Z) :
  useCache o = true ->
  (forall item, cache w !! getCacheKey o = Some item ->
     (cacheTTL o <= now w - timestamp item)%Z) ->
  cacheDir w !! getCacheKey o = Some file ->
  (now w - mtimeMs file < cacheTTL o)%Z ->
  parsed file = Some d ->
  (elapsed < cacheTTL o)%Z ->
  let w' := fst (snd (getFromCache o (w, p))) in
  fst (getFromCache o (w, p)) = Ok d
  /\ cache w' !! getCacheKey o = Some {| timestamp := now w; data := d |}
  /\ fst (getFromCache o (with_now (now w + elapsed) w', p)) = Ok d.
Proof.
  intros Hcache Hmem Hfile Hage Hparsed Hlt w'. subst w'.
  rewrite (getFromCache_disk o Hcache w p file d) by assumption.
  cbn [fst snd].
  assert (Hitem : cache (with_cache
                     (<[getCacheKey o := {| timestamp := now w; data := d |}]> (cache w))
                     (reported o (1 # 10) "从文件缓存加载数据" w)) !! getCacheKey o
                  = Some {| timestamp := now w; data := d |})
    by (cbn; apply lookup_insert_eq).
  split; [reflexivity|]. split; [exact Hitem|].
  rewrite (getFromCache_memory o Hcache _ p {| timestamp := now w; data := d |});
    [reflexivity | exact Hitem | cbn; lia].
Qed.

Lemma disk_hit_restamps_witness :
  let o := default_options sample_url in
  let file := {| mtimeMs := 0; parsed := Some sample_document |} in
  let w := with_now 3599999 (with_cacheDir {[ getCacheKey o := file ]} empty_world) in
  let w' := fst (snd (getFromCache o (w, new))) in
  cacheDir w !! getCacheKey o = Some file
  /\ (now w - mtimeMs file < cacheTTL o)%Z
  /\ (cacheTTL o <= now (with_now (now w + 3599999) w') - mtimeMs file)%Z
  /\ fst (getFromCache o (with_now (now w + 3599999) w', new)) = Ok sample_document.
Proof.
  intros o file w w'.
  assert (Hmem : forall item, cache w !! getCacheKey o = Some item ->
            (cacheTTL o <= now w - timestamp item)%Z)
    by (intros item H; cbn in H; rewrite lookup_empty in H; discriminate).
  assert (Hfile : cacheDir w !! getCacheKey o = Some file)
    by (cbn; apply lookup_singleton_eq).
  assert (Hage : (now w - mtimeMs file < cacheTTL o)%Z) by (cbn; lia).
  assert (Hlt : (3599999 < cacheTTL o)%Z) by (cbn; lia).
  split; [exact Hfile|]. split; [exact Hage|]. split; [cbn; lia|].
  exact (proj2 (proj2 (disk_hit_restamps o w new file sample_document 3599999%Z
                         eq_refl Hmem Hfile Hage eq_refl Hlt))).
Defined.

(** What was just saved is found: with caching enabled and a positive time
    to live, the lookup that follows [saveToCache] returns the saved
    document. *)
Theorem saved_document_found (env : Env) (o : OptimizedSwaggerApiParserOptions)
    (d : value) (w : World) (p : Instance) :
  useCache o = true ->
  (0 < cacheTTL o)%Z ->
  fst (bind (saveToCache env o d) (fun _ => getFromCache o) (w, p)) = Ok d.
Proof.
  intros Hcache Httl. unfold bind. rewrite saveToCache_run.
  rewrite (getFromCache_memory o Hcache _ p {| timestamp := now w; data := d |});
    [reflexivity | | cbn].
  - unfold stored. rewrite Hcache. cbn. apply lookup_insert_eq.
  - unfold stored. rewrite Hcache. cbn. lia.
Qed.

Lemma saved_document_found_witness :
  let o := default_options sample_url in
  useCache o = true /\ (0 < cacheTTL o)%Z
  /\ fst (bind (saveToCache (sample_env VNull) o (VStr "doc"))
            (fun _ => getFromCache o) (empty_world, new)) = Ok (VStr "doc").
Proof.
  intros o.
  assert (Httl : (0 < cacheTTL o)%Z) by (cbn; lia).
  split; [reflexivity|]. split; [exact Httl|].
  exact (saved_document_found (sample_env VNull) o (VStr "doc") empty_world new
           eq_refl Httl).
Defined.

(** *** Resolving a Swagger UI reference *)



(** *** Failure of the source *)



(** *** Progress reports of [fetchApi] *)

(** A parser that already holds the parsed document returns it at once,
    without a report or a read, unless a refresh is forced.  Otherwise the
    last report of the call is 1: with the message of completion when the
    call returns, and with the cause when it throws, the error thrown
    being [Failed to fetch API: <cause>]. *)
Theorem fetchApi_last_report (env : Env) (o : OptimizedSwaggerApiParserOptions)
    (forceRefresh : bool) (w : World) (p : Instance) :
  (Js.to_boolean (api p) && negb forceRefresh = true ->
   fetchApi env o forceRefresh (w, p) = (Ok (api p), (w, p)))
  /\ (Js.to_boolean (api p) && negb forceRefresh = false ->
      progressCallback o = true ->
      exists earlier message,
        reports (fst (snd (fetchApi env o forceRefresh (w, p))))
        = (earlier ++ [(1%Q, message)])%list
        /\ match fst (fetchApi env o forceRefresh (w, p)) with
           | Ok _ => message = "API文档解析完成"
           | Throw msg =>
               exists cause, msg = "Failed to fetch API: " ++ cause
                             /\ message = "解析失败: " ++ cause
           end).
Proof.
  split.
  - intros Hearly. unfold fetchApi. unfold bind at 1. cbn [self snd].
    now rewrite Hearly.
  - intros Hearly Hcb.
    destruct (fetchApi env o forceRefresh (w, p)) as [r st] eqn:E.
    unfold fetchApi in E. unfold bind at 1 in E. cbn [self snd] in E.
    rewrite Hearly in E. unfold try_catch in E. unfold bind at 1 in E.
    match type of E with
    | context [match ?inner (w, p) with _ => _ end] =>
        destruct (inner (w, p)) as [[u|cause] [w1 p1]]
    end.
    + unfold bind at 1 in E. rewrite reportProgress_run in E.
      cbn in E. injection E as <- <-.
      unfold reported. rewrite Hcb. cbn. eexists _, _. split; reflexivity.
    + unfold bind at 1 in E. rewrite reportProgress_run in E.
      cbn in E. injection E as <- <-.
      unfold reported. rewrite Hcb. cbn. eexists _, _. split; [reflexivity|].
      eexists. split; reflexivity.
Qed.

Lemma fetchApi_last_report_witness :
  let env := {| http_get := fun _ _ => inl "timeout of 30000ms exceeded";
                read_json_file := fun _ => inl "ENOENT";
                cache_writable := true; latency := fun _ => 5%Z;
                sp_parse := fun doc => inr doc; sp_validate := fun doc => inr doc |} in
  let o := default_options sample_url in
  Js.to_boolean (api new) && negb false = false
  /\ progressCallback o = true
  /\ exists earlier message,
       reports (fst (snd (fetchApi env o false (empty_world, new))))
       = (earlier ++ [(1%Q, message)])%list.
Proof.
  intros env o. split; [reflexivity|]. split; [reflexivity|].
  destruct (proj2 (fetchApi_last_report env o false empty_world new) eq_refl eq_refl)
    as (earlier & message & Hlast & _).
  exists earlier, message. exact Hlast.
Defined.

(** *** The order of the progress reports *)













(** ** Model projections *)

Import Projections.

(** C6. Filtering the schema table and filtering the operations by tag
    alike: with a non-empty include list the exclude list plays no part, the
    result is that of the include list alone; with no include list and no
    exclude list, or with empty ones, the filter returns its input. *)
Theorem include_list_takes_precedence (SchemaObject : Type)
    (schemas : gmap string (slot SchemaObject)) (operations : list ApiOperation)
    (name : string) (names : list string) (include exclude : option (list string)) :
  filterSchemas schemas (Some (name :: names)) exclude
  = filterSchemas schemas (Some (name :: names)) None
  /\ filterOperations operations (Some (name :: names)) exclude
     = filterOperations operations (Some (name :: names)) None
  /\ (supplied include = false -> supplied exclude = false ->
      filterSchemas schemas include exclude = schemas
      /\ filterOperations operations include exclude = operations).
Proof.
  split; [reflexivity|]. split; [reflexivity|].
  intros Hi He. unfold filterSchemas, filterOperations. now rewrite Hi, He.
Qed.

Lemma include_list_takes_precedence_witness :
  let op := {| operationId := "listPets"; method := "get"; path := "/pets";
               summary := None; description := None; tags := Some ["pets"] |} in
  let schemas : gmap string (slot nat) := {[ "Pet" := Schema 1 ]} in
  supplied (Some []) = false /\ supplied None = false
  /\ filterSchemas schemas (Some []) None = schemas
  /\ filterOperations [op] (Some []) None = [op].
Proof.
  intros op schemas.
  split; [reflexivity|]. split; [reflexivity|].
  exact (proj2 (proj2 (include_list_takes_precedence nat schemas [op]
                         "Pet" [] (Some []) None)) eq_refl eq_refl).
Defined.


(** *** Filters *)

Lemma filter_sublist {A : Type} (f : A -> bool) (l : list A) :
  sublist (List.filter f l) l.
Proof.
  induction l as [|x l IH]; cbn [List.filter]; [constructor|].
  destruct (f x); now constructor.
Qed.

(** With an include list, an operation is kept exactly when one of its tags
    is on the list, so an operation without tags is always dropped; with an
    exclude list alone, it is kept exactly when none of its tags is on the
    list, so an operation without tags is always kept.  Either way the
    result is a sublist of the input, in the same order. *)
Theorem filterOperations_membership (operations : list ApiOperation)
    (name : string) (names : list string) (exclude : option (list string))
    (operation : ApiOperation) :
  (In operation (filterOperations operations (Some (name :: names)) exclude)
   <-> In operation operations
       /\ exists ts t, tags operation = Some ts /\ In t ts /\ In t (name :: names))
  /\ (In operation (filterOperations operations None (Some (name :: names)))
      <-> In operation operations
          /\ forall ts t, tags operation = Some ts -> In t ts ->
                          ~ In t (name :: names))
  /\ sublist (filterOperations operations (Some (name :: names)) exclude) operations
  /\ sublist (filterOperations operations None (Some (name :: names))) operations.
Proof.
  assert (Hsome : forall op l, some_tag_in op l = true
                    <-> exists ts t, tags op = Some ts /\ In t ts /\ In t l).
  { intros op l. unfold some_tag_in. destruct (tags op) as [ts|].
    - rewrite existsb_exists. split.
      + intros (t & Ht & Hin). exists ts, t. repeat split; auto.
        unfold includes in Hin. apply existsb_exists in Hin as (x & Hx & E).
        apply String.eqb_eq in E. now subst.
      + intros (ts' & t & [= <-] & Ht & Hin). exists t. split; [exact Ht|].
        unfold includes. apply existsb_exists. exists t. split; [exact Hin|].
        apply String.eqb_refl.
    - split; [discriminate|]. intros (ts & t & H & _). discriminate. }
  unfold filterOperations. cbn [supplied default from_option id].
  split; [|split; [|split]].
  - rewrite filter_In. now rewrite Hsome.
  - rewrite filter_In, negb_true_iff. split.
    + intros [Hin Hno]. split; [exact Hin|].
      intros ts t Hts Ht Hbad.
      assert (some_tag_in operation (name :: names) = true)
        by (apply Hsome; eauto).
      congruence.
    + intros [Hin Hno]. split; [exact Hin|].
      destruct (some_tag_in operation (name :: names)) eqn:E; [|reflexivity].
      apply Hsome in E as (ts & t & Hts & Ht & Hbad).
      exfalso. exact (Hno ts t Hts Ht Hbad).
  - apply filter_sublist.
  - apply filter_sublist.
Qed.

Lemma includes_cons (x y : string) (l : list string) :
  includes (y :: l) x = String.eqb x y || includes l x.
Proof. reflexivity. Qed.

(** The table an include list selects holds, for each listed name other
    than [__proto__], what reading that name from the table gives: the
    schema when the table has one, nothing when the name is unknown, and,
    for a name the table lacks but every object inherits (such as
    [constructor] or [toString]), the inherited member, which is no schema.
    Names off the list are absent. *)
Theorem filterSchemas_include_lookup (SchemaObject : Type)
    (schemas : gmap string (slot SchemaObject)) (name : string)
    (names : list string) (exclude : option (list string)) (k : string) :
  filterSchemas schemas (Some (name :: names)) exclude !! k
  = if includes (name :: names) k && negb (String.eqb k "__proto__") then
      match record_get schemas k with
      | Own v => Some v
      | Inherited => Some (Builtin k)
      | Missing => None
      end
    else None.
Proof.
  unfold filterSchemas. cbn [supplied default from_option id].
  set (step := fun (result : gmap string (slot SchemaObject)) schemaName => _).
  assert (Hfold : forall l acc,
            fold_left step l acc !! k
            = if includes l k && negb (String.eqb k "__proto__") then
                match record_get schemas k with
                | Own v => Some v
                | Inherited => Some (Builtin k)
                | Missing => acc !! k
                end
              else acc !! k).
  { induction l as [|x l IH]; intros acc; [reflexivity|].
    cbn [fold_left]. rewrite IH, includes_cons.
    destruct (includes l k && negb (String.eqb k "__proto__")) eqn:Hl.
    - apply andb_true_iff in Hl as [Hin Hp]. rewrite Hin, orb_true_r, Hp. cbn [andb].
      destruct (record_get schemas k) eqn:Hk; try reflexivity.
      subst step. cbn beta.
      destruct (String.eqb x "__proto__"); [reflexivity|].
      destruct (String.eqb_spec k x) as [->|Hne].
      + now rewrite Hk.
      + destruct (record_get schemas x); rewrite ?lookup_insert_ne by congruence;
          reflexivity.
    - destruct (String.eqb_spec k x) as [->|Hne].
      + cbn [orb]. subst step. cbn beta.
        destruct (String.eqb x "__proto__"); [reflexivity|]. cbn [negb andb].
        destruct (record_get schemas x); rewrite ?lookup_insert_eq; reflexivity.
      + cbn [orb]. rewrite Hl. subst step. cbn beta.
        destruct (String.eqb x "__proto__"); [reflexivity|].
        destruct (record_get schemas x); rewrite ?lookup_insert_ne by congruence;
          reflexivity. }
  rewrite Hfold. rewrite lookup_empty.
  destruct (includes (name :: names) k && negb (String.eqb k "__proto__"));
    [|reflexivity].
  destruct (record_get schemas k); reflexivity.
Qed.

(** The table an exclude list leaves (with no include list, or an empty
    one) is the input without the listed names: a listed name is absent,
    every other name is as it was. *)
Theorem filterSchemas_exclude_lookup (SchemaObject : Type)
    (schemas : gmap string (slot SchemaObject)) (include : option (list string))
    (name : string) (names : list string) (k : string) :
  supplied include = false ->
  filterSchemas schemas include (Some (name :: names)) !! k
  = if includes (name :: names) k then None else schemas !! k.
Proof.
  intros Hi. unfold filterSchemas. rewrite Hi. cbn [supplied default from_option id].
  assert (Hfold : forall l acc,
            fold_left (fun result schemaName => delete schemaName result) l acc !! k
            = if includes l k then None else (acc : gmap string (slot SchemaObject)) !! k).
  { induction l as [|x l IH]; intros acc; [reflexivity|].
    cbn [fold_left]. rewrite IH, includes_cons.
    destruct (includes l k); [now rewrite orb_true_r|]. rewrite orb_false_r.
    destruct (String.eqb_spec k x) as [->|Hne].
    - apply lookup_delete_eq.
    - apply lookup_delete_ne. congruence. }
  apply Hfold.
Qed.

Lemma filterSchemas_exclude_lookup_witness :
  let schemas : gmap string (slot nat) := {[ "Pet" := Schema 1; "Owner" := Schema 2 ]} in
  supplied (Some []) = false
  /\ filterSchemas schemas (Some []) (Some ["Pet"]) !! "Pet" = None
  /\ filterSchemas schemas (Some []) (Some ["Pet"]) !! "Owner" = Some (Schema 2).
Proof.
  intros schemas. split; [reflexivity|]. split.
  - exact (filterSchemas_exclude_lookup nat schemas (Some []) "Pet" [] "Pet" eq_refl).
  - rewrite (filterSchemas_exclude_lookup nat schemas (Some []) "Pet" [] "Owner" eq_refl).
    reflexivity.
Defined.
(** *** Grouping *)

Lemma add_to_group_own (grouped grouped' : gmap string (list ApiOperation))
    (name : string) (operation : ApiOperation) :
  own_names_only grouped ->
  add_to_group grouped name operation = Some grouped' ->
  own_names_only grouped'.
Proof.
  intros Hown Hadd. unfold add_to_group, record_get in Hadd.
  assert (Hname : is_inherited name = false).
  { destruct (grouped !! name) as [l|] eqn:E; [now apply (Hown name l)|].
    destruct (is_inherited name); [discriminate | reflexivity]. }
  assert (Hins : exists l, grouped' = <[name := l]> grouped).
  { destruct (grouped !! name) as [l|]; [injection Hadd as <-; eauto|].
    rewrite Hname in Hadd. injection Hadd as <-; eauto. }
  destruct Hins as [l ->]. intros k l' Hk.
  destruct (decide (name = k)) as [<-|Hne]; [exact Hname|].
  rewrite lookup_insert_ne in Hk by exact Hne. now apply (Hown k l').
Qed.

Lemma add_to_group_inherited (grouped : gmap string (list ApiOperation))
    (name : string) (operation : ApiOperation) :
  own_names_only grouped ->
  is_inherited name = true ->
  add_to_group grouped name operation = None.
Proof.
  intros Hown Hname. unfold add_to_group, record_get.
  destruct (grouped !! name) as [l|] eqn:E.
  - specialize (Hown name l E). congruence.
  - now rewrite Hname.
Qed.

Lemma add_to_groups_own (names : list string) (operation : ApiOperation)
    (grouped grouped' : gmap string (list ApiOperation)) :
  own_names_only grouped ->
  add_to_groups grouped names operation = Some grouped' ->
  own_names_only grouped'.
Proof.
  revert grouped. induction names as [|name rest IH]; intros grouped Hown Hadd.
  - cbn in Hadd. now injection Hadd as <-.
  - cbn [add_to_groups] in Hadd.
    destruct (add_to_group grouped name operation) as [g|] eqn:E; [|discriminate].
    apply (IH g); [now apply (add_to_group_own grouped g name operation)|exact Hadd].
Qed.

Lemma add_to_groups_inherited (names : list string) (operation : ApiOperation)
    (grouped : gmap string (list ApiOperation)) (t : string) :
  own_names_only grouped ->
  In t names ->
  is_inherited t = true ->
  add_to_groups grouped names operation = None.
Proof.
  revert grouped. induction names as [|name rest IH]; intros grouped Hown Hin Ht.
  - destruct Hin.
  - cbn [add_to_groups].
    destruct (add_to_group grouped name operation) as [g|] eqn:E; [|reflexivity].
    destruct Hin as [->|Hin].
    + rewrite add_to_group_inherited in E by assumption. discriminate.
    + apply IH; [now apply (add_to_group_own grouped g name operation)|assumption..].
Qed.

Lemma group_loop_own (groupBy : GroupBy) (operations : list ApiOperation)
    (grouped grouped' : gmap string (list ApiOperation)) :
  own_names_only grouped ->
  group_loop groupBy grouped operations = Some grouped' ->
  own_names_only grouped'.
Proof.
  revert grouped. induction operations as [|operation rest IH];
    intros grouped Hown Hloop.
  - cbn in Hloop. now injection Hloop as <-.
  - cbn [group_loop] in Hloop.
    destruct (add_to_groups grouped (groupNames groupBy operation) operation)
      as [g|] eqn:E; [|discriminate].
    apply (IH g); [|exact Hloop].
    now apply (add_to_groups_own (groupNames groupBy operation) operation grouped).
Qed.

Lemma own_names_only_empty : own_names_only ∅.
Proof. intros name l H. rewrite lookup_empty in H. discriminate. Qed.

(** C7, where the code departs from it: an operation one of whose group
    names (a tag under grouping by tag, the first path segment under grouping
    by path) is the name of a member that every object inherits, such as
    [constructor] or [toString], is put in no group: the grouping of any
    list that holds it ends in a TypeError. *)
Theorem group_named_like_inherited_member (groupBy : GroupBy)
    (before after : list ApiOperation) (operation : ApiOperation) (t : string) :
  In t (groupNames groupBy operation) ->
  is_inherited t = true ->
  groupOperations (before ++ operation :: after)%list groupBy = None.
Proof.
  intros Hin Ht.
  assert (Hloop : forall grouped, own_names_only grouped ->
            group_loop groupBy grouped (before ++ operation :: after)%list = None).
  { induction before as [|first before IH]; intros grouped Hown.
    - cbn [app group_loop].
      now rewrite (add_to_groups_inherited _ operation grouped t).
    - cbn [app group_loop].
      destruct (add_to_groups grouped (groupNames groupBy first) first)
        as [g|] eqn:E; [|reflexivity].
      apply IH.
      now apply (add_to_groups_own (groupNames groupBy first) first grouped). }
  destruct groupBy; [| |destruct Hin]; apply Hloop, own_names_only_empty.
Qed.

Lemma group_named_like_inherited_member_witness :
  let operation := {| operationId := "create"; method := "post"; path := "/factory";
                      summary := None; description := None;
                      tags := Some ["a"; "constructor"] |} in
  In "constructor" (groupNames ByTag operation)
  /\ is_inherited "constructor" = true
  /\ groupOperations [operation] ByTag = None.
Proof.
  intros operation.
  assert (Hin : In "constructor" (groupNames ByTag operation))
    by (right; left; reflexivity).
  split; [exact Hin|]. split; [reflexivity|].
  exact (group_named_like_inherited_member ByTag [] [] operation "constructor"
           Hin eq_refl).
Defined.

Lemma extend_extend (group : option (list ApiOperation)) (a b : list ApiOperation) :
  extend (extend group a) b = extend group (a ++ b)%list.
Proof.
  destruct group as [l|]; cbn [extend].
  - now rewrite <- app_assoc.
  - destruct a as [|x a]; cbn [extend app]; reflexivity.
Qed.

Lemma add_to_group_lookup (grouped : gmap string (list ApiOperation))
    (n : string) (operation : ApiOperation) :
  own_names_only grouped ->
  is_inherited n = false ->
  exists grouped',
    add_to_group grouped n operation = Some grouped'
    /\ forall name,
         grouped' !! name
         = extend (grouped !! name) (if String.eqb name n then [operation] else []).
Proof.
  intros Hown Hn. unfold add_to_group, record_get.
  destruct (grouped !! n) as [l|] eqn:E.
  - eexists. split; [reflexivity|]. intros name.
    destruct (String.eqb_spec name n) as [->|Hne].
    + now rewrite lookup_insert_eq, E.
    + rewrite lookup_insert_ne by congruence.
      destruct (grouped !! name); cbn [extend]; [now rewrite app_nil_r | reflexivity].
  - rewrite Hn. eexists. split; [reflexivity|]. intros name.
    destruct (String.eqb_spec name n) as [->|Hne].
    + now rewrite lookup_insert_eq, E.
    + rewrite lookup_insert_ne by congruence.
      destruct (grouped !! name); cbn [extend]; [now rewrite app_nil_r | reflexivity].
Qed.

Lemma add_to_groups_lookup (names : list string) (operation : ApiOperation)
    (grouped : gmap string (list ApiOperation)) :
  own_names_only grouped ->
  (forall n, In n names -> is_inherited n = false) ->
  exists grouped',
    add_to_groups grouped names operation = Some grouped'
    /\ forall name,
         grouped' !! name = extend (grouped !! name) (occurrences name names operation).
Proof.
  revert grouped. induction names as [|n names IH]; intros grouped Hown Hnames.
  - exists grouped. split; [reflexivity|]. intros name. unfold occurrences. cbn.
    destruct (grouped !! name); cbn [extend]; [now rewrite app_nil_r | reflexivity].
  - cbn [add_to_groups].
    destruct (add_to_group_lookup grouped n operation Hown (Hnames n (or_introl eq_refl)))
      as (g1 & Hadd & Hg1).
    rewrite Hadd.
    destruct (IH g1) as (g2 & Hrest & Hg2).
    { now apply (add_to_group_own grouped g1 n operation). }
    { intros n' Hin. apply Hnames. now right. }
    exists g2. split; [exact Hrest|]. intros name.
    rewrite Hg2, Hg1, extend_extend. f_equal.
    unfold occurrences. cbn [List.filter].
    destruct (String.eqb name n); reflexivity.
Qed.

Lemma group_loop_lookup (groupBy : GroupBy) (operations : list ApiOperation)
    (grouped : gmap string (list ApiOperation)) :
  own_names_only grouped ->
  (forall operation n, In operation operations ->
     In n (groupNames groupBy operation) -> is_inherited n = false) ->
  exists grouped',
    group_loop groupBy grouped operations = Some grouped'
    /\ forall name,
         grouped' !! name = extend (grouped !! name) (placed groupBy name operations).
Proof.
  revert grouped. induction operations as [|operation rest IH];
    intros grouped Hown Hnames.
  - exists grouped. split; [reflexivity|]. intros name. cbn.
    destruct (grouped !! name); cbn [extend]; [now rewrite app_nil_r | reflexivity].
  - cbn [group_loop].
    destruct (add_to_groups_lookup (groupNames groupBy operation) operation grouped Hown)
      as (g1 & Hadd & Hg1).
    { intros n Hin. apply (Hnames operation n); [now left | exact Hin]. }
    rewrite Hadd.
    destruct (IH g1) as (g2 & Hrest & Hg2).
    { now apply (add_to_groups_own (groupNames groupBy operation) operation grouped). }
    { intros op n Hop Hin. apply (Hnames op n); [now right | exact Hin]. }
    exists g2. split; [exact Hrest|]. intros name.
    rewrite Hg2, Hg1, extend_extend. reflexivity.
Qed.

(** When no group name is the name of an inherited member, grouping by tag
    or by path succeeds, and the group of each name holds the operations
    that carry the name, in their order, once per occurrence of the name
    (twice for a tag listed twice); a name no operation carries has no
    group.  So an operation is in the group of each of its tags, an
    operation without tags is in the group [default] only, and no group is
    empty.  Without grouping there is the one group [api], also for an
    empty list. *)
Theorem groupOperations_groups (groupBy : GroupBy) (operations : list ApiOperation) :
  (forall operation n, In operation operations ->
     In n (groupNames groupBy operation) -> is_inherited n = false) ->
  exists grouped,
    groupOperations operations groupBy = Some grouped
    /\ match groupBy with
       | ByNone => grouped = {[ "api" := operations ]}
       | _ =>
           (forall name,
              grouped !! name = extend None (placed groupBy name operations))
           /\ (forall name operation,
                 (exists l, grouped !! name = Some l /\ In operation l)
                 <-> In operation operations
                     /\ In name (groupNames groupBy operation))
           /\ (forall name, grouped !! name <> Some [])
       end.
Proof.
  intros Hnames.
  assert (Hplaced : forall name operation,
            In operation (placed groupBy name operations)
            <-> In operation operations /\ In name (groupNames groupBy operation)).
  { intros name operation. unfold placed. rewrite in_flat_map. split.
    - intros (op & Hop & Hin). unfold occurrences in Hin.
      apply in_map_iff in Hin as (n & <- & Hn).
      apply filter_In in Hn as [Hn E]. apply String.eqb_eq in E. subst n. auto.
    - intros [Hop Hn]. exists operation. split; [exact Hop|].
      unfold occurrences. apply in_map_iff. exists name. split; [reflexivity|].
      apply filter_In. split; [exact Hn | apply String.eqb_refl]. }
  assert (Hloop : groupBy <> ByNone ->
            exists grouped,
              group_loop groupBy ∅ operations = Some grouped
              /\ (forall name,
                    grouped !! name = extend None (placed groupBy name operations))
              /\ (forall name operation,
                    (exists l, grouped !! name = Some l /\ In operation l)
                    <-> In operation operations
                        /\ In name (groupNames groupBy operation))
              /\ (forall name, grouped !! name <> Some [])).
  { intros _.
    destruct (group_loop_lookup groupBy operations ∅ own_names_only_empty Hnames)
      as (g & Hg & Hlookup).
    assert (Hl : forall name,
              g !! name = extend None (placed groupBy name operations))
      by (intros name; now rewrite Hlookup, lookup_empty).
    exists g. split; [exact Hg|]. split; [exact Hl|]. split.
    - intros name operation. rewrite <- Hplaced, Hl.
      destruct (placed groupBy name operations) as [|x l]; cbn [extend].
      + split; [intros (l & [=] & _) | intros []].
      + split; [intros (l' & [= <-] & Hin); exact Hin | eauto].
    - intros name. rewrite Hl.
      destruct (placed groupBy name operations); cbn [extend]; discriminate. }
  destruct groupBy; [now apply Hloop | now apply Hloop |].
  eexists. split; reflexivity.
Qed.

Lemma groupOperations_groups_witness :
  let both := {| operationId := "listPets"; method := "get"; path := "/pets";
                 summary := None; description := None; tags := Some ["a"; "b"] |} in
  let bare := {| operationId := "ping"; method := "get"; path := "/ping";
                 summary := None; description := None; tags := None |} in
  (forall operation n, In operation [both; bare] ->
     In n (groupNames ByTag operation) -> is_inherited n = false)
  /\ exists grouped,
       groupOperations [both; bare] ByTag = Some grouped
       /\ grouped !! "a" = Some [both]
       /\ grouped !! "b" = Some [both]
       /\ grouped !! "default" = Some [bare]
       /\ grouped !! "c" = None.
Proof.
  intros both bare.
  assert (Hnames : forall operation n, In operation [both; bare] ->
            In n (groupNames ByTag operation) -> is_inherited n = false).
  { intros operation n [<-|[<-|[]]]; cbn; intros H;
      decompose [or] H; subst; try reflexivity; contradiction. }
  split; [exact Hnames|].
  destruct (groupOperations_groups ByTag [both; bare] Hnames)
    as (grouped & Hg & Hlookup & _).
  exists grouped. split; [exact Hg|].
  rewrite !Hlookup. repeat split; reflexivity.
Defined.

(** ** Template manager *)

Import TemplateManager.

Lemma load_builtIn_marked (d : Disk) (entries : list Template) (m m' : Manager)
    (r : outcome unit) :
  load_builtIn d entries m = (r, m') ->
  built_ins_marked m ->
  built_ins_marked m'
  /\ customTemplates m' = customTemplates m /\ initialized m' = initialized m.
Proof.
  revert m. induction entries as [|t rest IH]; intros m Hload Hm.
  - cbn in Hload. injection Hload as _ <-. auto.
  - cbn [load_builtIn] in Hload.
    destruct (path t) as [rel|]; [|injection Hload as _ <-; auto].
    destruct (builtInFiles d !! rel) as [body|]; [|injection Hload as _ <-; auto].
    apply IH in Hload; [exact Hload|].
    unfold built_ins_marked. cbn. apply Forall_app. split; [exact Hm|].
    constructor; [reflexivity | constructor].
Qed.

Lemma load_custom_builtIn (d : Disk) (entries : list Template) (m m' : Manager)
    (r : outcome unit) :
  load_custom d entries m = (r, m') ->
  builtInTemplates m' = builtInTemplates m /\ initialized m' = initialized m.
Proof.
  revert m. induction entries as [|t rest IH]; intros m Hload.
  - cbn in Hload. injection Hload as _ <-. auto.
  - cbn [load_custom] in Hload.
    destruct (path t) as [rel|]; [|injection Hload as _ <-; auto].
    destruct (customFiles d !! rel) as [body|]; [|now apply IH].
    apply IH in Hload. exact Hload.
Qed.

(** Initialization keeps the mark on every built-in template. *)
Lemma initialize_marked (st : State) (r : outcome unit) (d : Disk) (m : Manager) :
  initialize st = (r, (d, m)) ->
  built_ins_marked (snd st) ->
  built_ins_marked m.
Proof.
  destruct st as [d0 m0]. unfold initialize. cbn [snd].
  destruct (initialized m0); [intros [= _ _ <-]; auto|].
  unfold loadBuiltInTemplates.
  destruct (builtInConfig (ensureDirectoriesExist d0)) as [entries|];
    [|intros [= _ _ <-]; auto].
  destruct (load_builtIn (ensureDirectoriesExist d0) entries m0) as [r1 m1] eqn:E1.
  intros Hinit Hm0.
  destruct (load_builtIn_marked _ _ _ _ _ E1 Hm0) as (Hm1 & _ & _).
  destruct r1 as [[]|msg]; [|injection Hinit as _ _ <-; exact Hm1].
  unfold loadCustomTemplates in Hinit.
  destruct (customConfig (ensureDirectoriesExist d0)) as [custom|].
  - destruct (load_custom (ensureDirectoriesExist d0) custom m1) as [r2 m2] eqn:E2.
    destruct (load_custom_builtIn _ _ _ _ _ E2) as [Hb _].
    assert (Hm2 : built_ins_marked m2) by (unfold built_ins_marked; now rewrite Hb).
    destruct r2 as [[]|msg]; injection Hinit as _ _ <-; exact Hm2.
  - injection Hinit as _ _ <-. exact Hm1.
Qed.

Lemma initialize_again (d : Disk) (m : Manager) :
  initialized m = true -> initialize (d, m) = (Done tt, (d, m)).
Proof. intros H. unfold initialize. now rewrite H. Qed.

(** The first template with a given identifier is a built-in one as soon as
    some built-in template has that identifier. *)
Lemma getTemplate_builtIn (m : Manager) (b : Template) :
  In b (builtInTemplates m) ->
  exists x, getTemplate m (id b) = Some x /\ In x (builtInTemplates m).
Proof.
  unfold getTemplate, getAllTemplates. intros Hin.
  induction (builtInTemplates m) as [|x l IH]; [destruct Hin|].
  cbn [app List.find].
  destruct (String.eqb_spec (id x) (id b)) as [E|E].
  - exists x. split; [reflexivity | now left].
  - destruct Hin as [->|Hin]; [congruence|].
    destruct (IH Hin) as (y & Hy & Hiy). exists y. split; [exact Hy | now right].
Qed.

(** C8, as the claim states it, fails for a manager that was not
    initialized yet: the rejected call initializes it first, which creates
    the manifest of the custom directory when it is missing, and loads the
    custom templates of the disk into memory. *)
Lemma rejected_save_initializes :
  let entry := {| id := "fetch-client"; name := "Fetch client"; type := API_CLIENT;
                  framework := Some "fetch"; path := Some "api-client/fetch-client.tpl";
                  content := None; isBuiltIn := None; description := None |} in
  let mine := {| id := "mine"; name := "Mine"; type := CONFIG_FILE;
                 framework := None; path := Some "config/mine.tpl";
                 content := None; isBuiltIn := Some false; description := None |} in
  let template := {| id := "fetch-client"; name := "Mine"; type := API_CLIENT;
                     framework := None; path := None; content := Some "mine";
                     isBuiltIn := None; description := None |} in
  let bare := {| builtInConfig := Some [entry];
                 builtInFiles := {[ "api-client/fetch-client.tpl" := "export {}" ]};
                 customConfig := None; customFiles := ∅ |} in
  let used := {| builtInConfig := Some [entry];
                 builtInFiles := {[ "api-client/fetch-client.tpl" := "export {}" ]};
                 customConfig := Some [mine];
                 customFiles := {[ "config/mine.tpl" := "body" ]} |} in
  (fst (saveCustomTemplate template (bare, new))
   = Failed "Cannot override built-in template: fetch-client"
   /\ customConfig bare = None
   /\ customConfig (fst (snd (saveCustomTemplate template (bare, new)))) = Some [])
  /\ (fst (saveCustomTemplate template (used, new))
      = Failed "Cannot override built-in template: fetch-client"
      /\ customTemplates new = []
      /\ customTemplates (snd (snd (saveCustomTemplate template (used, new))))
         = [set_content (Some "body") (Some false) mine]).
Proof. repeat split; reflexivity. Qed.

(** C8, amended. Saving a template under the identifier of a built-in
    template fails with the message [Cannot override built-in template:
    <id>], and writes nothing of the template: the state after the call is
    the state initialization alone leaves, and for a manager already
    initialized it is the state before the call, with the same list of
    custom templates, the same body files and the same manifest. *)
Theorem builtIn_identifier_rejected (st : State) (d : Disk) (m : Manager)
    (template b : Template) :
  built_ins_marked (snd st) ->
  initialize st = (Done tt, (d, m)) ->
  In b (builtInTemplates m) ->
  id b = id template ->
  saveCustomTemplate template st
  = (Failed ("Cannot override built-in template: " ++ id template), (d, m))
  /\ (initialized (snd st) = true -> (d, m) = st).
Proof.
  intros Hmarked Hinit Hin Hid. split.
  - unfold saveCustomTemplate. rewrite Hinit.
    destruct (getTemplate_builtIn m b Hin) as (x & Hx & Hix).
    rewrite Hid in Hx. rewrite Hx.
    assert (Hm : built_ins_marked m) by exact (initialize_marked _ _ _ _ Hinit Hmarked).
    unfold built_ins_marked in Hm. rewrite List.Forall_forall in Hm.
    cbn [is_builtIn]. now rewrite (Hm x Hix).
  - intros Hi. destruct st as [d0 m0]. cbn [snd] in Hi.
    rewrite initialize_again in Hinit by exact Hi. congruence.
Qed.

Lemma builtIn_identifier_rejected_witness :
  let entry := {| id := "fetch-client"; name := "Fetch client"; type := API_CLIENT;
                  framework := Some "fetch"; path := Some "api-client/fetch-client.tpl";
                  content := None; isBuiltIn := None; description := None |} in
  let disk := {| builtInConfig := Some [entry];
                 builtInFiles := {[ "api-client/fetch-client.tpl" := "export {}" ]};
                 customConfig := None; customFiles := ∅ |} in
  let template := {| id := "fetch-client"; name := "Mine"; type := API_CLIENT;
                     framework := None; path := None; content := Some "mine";
                     isBuiltIn := None; description := None |} in
  let after := snd (initialize (disk, new)) in
  built_ins_marked new
  /\ initialize (disk, new) = (Done tt, after)
  /\ customFiles (fst after) = ∅
  /\ customConfig (fst after) = Some []
  /\ saveCustomTemplate template (disk, new)
     = (Failed "Cannot override built-in template: fetch-client", after)
  /\ saveCustomTemplate template after
     = (Failed "Cannot override built-in template: fetch-client", after).
Proof.
  intros entry disk template after.
  assert (Hnew : built_ins_marked new) by constructor.
  assert (Hinit : initialize (disk, new) = (Done tt, (fst after, snd after)))
    by reflexivity.
  assert (Hafter : built_ins_marked (snd (fst after, snd after)))
    by exact (initialize_marked _ _ _ _ Hinit Hnew).
  assert (Hagain : initialize (fst after, snd after)
                   = (Done tt, (fst after, snd after))) by reflexivity.
  assert (Hin : In (set_content (Some "export {}") (Some true) entry)
                  (builtInTemplates (snd after))) by (left; reflexivity).
  split; [exact Hnew|]. split; [exact Hinit|].
  split; [reflexivity|]. split; [reflexivity|]. split.
  - exact (proj1 (builtIn_identifier_rejected (disk, new) (fst after) (snd after)
                    template _ Hnew Hinit Hin eq_refl)).
  - exact (proj1 (builtIn_identifier_rejected (fst after, snd after) (fst after)
                    (snd after) template _ Hafter Hagain Hin eq_refl)).
Defined.

(** *** Saving, finding and deleting custom templates *)

Lemma find_app_none {A : Type} (f : A -> bool) (l1 l2 : list A) :
  List.find f l1 = None -> List.find f (l1 ++ l2)%list = List.find f l2.
Proof.
  induction l1 as [|x l1 IH]; cbn [app List.find]; [reflexivity|].
  destruct (f x); [discriminate | exact IH].
Qed.

Lemma find_app_some {A : Type} (f : A -> bool) (l1 l2 : list A) (x : A) :
  List.find f l1 = Some x -> List.find f (l1 ++ l2)%list = Some x.
Proof.
  induction l1 as [|y l1 IH]; cbn [app List.find]; [discriminate|].
  destruct (f y); [auto | exact IH].
Qed.

Lemma find_upsert (t : Template) (l : list Template) :
  List.find (fun x => String.eqb (id x) (id t)) (upsert t l) = Some t.
Proof.
  induction l as [|x l IH]; cbn [upsert List.find].
  - now rewrite String.eqb_refl.
  - destruct (String.eqb (id x) (id t)) eqn:E; cbn [List.find].
    + now rewrite String.eqb_refl.
    + now rewrite E.
Qed.

(** With the built-in templates marked, a template that is found and is not
    built-in is not in the built-in list at all. *)
Lemma getTemplate_custom (m : Manager) (i : string) :
  built_ins_marked m ->
  is_builtIn (getTemplate m i) = false ->
  List.find (fun t => String.eqb (id t) i) (builtInTemplates m) = None.
Proof.
  intros Hm Hnot. unfold getTemplate, getAllTemplates in Hnot.
  destruct (List.find (fun t => String.eqb (id t) i) (builtInTemplates m))
    as [x|] eqn:E; [|reflexivity].
  rewrite (find_app_some _ _ (customTemplates m) x E) in Hnot.
  apply find_some in E as [Hin _].
  unfold built_ins_marked in Hm. rewrite List.Forall_forall in Hm.
  cbn [is_builtIn] in Hnot. rewrite (Hm x Hin) in Hnot. discriminate.
Qed.

Lemma saveCustomTemplate_found (template saved : Template) (st : State)
    (d d' : Disk) (m m' : Manager) :
  built_ins_marked (snd st) ->
  initialize st = (Done tt, (d, m)) ->
  saveCustomTemplate template st = (Done saved, (d', m')) ->
  getTemplate m' (id template) = Some saved
  /\ id saved = id template
  /\ content saved = content template
  /\ isBuiltIn saved = Some false
  /\ path saved = Some (relativePath template)
  /\ customFiles d' !! relativePath template
     = Some (default EmptyString (content template))
  /\ customConfig d' = Some (List.map without_content (customTemplates m'))
  /\ builtInTemplates m' = builtInTemplates m.
Proof.
  intros Hmarked Hinit Hsave. unfold saveCustomTemplate in Hsave.
  rewrite Hinit in Hsave.
  destruct (is_builtIn (getTemplate m (id template))) eqn:Hb; [discriminate|].
  cbn [updateCustomTemplatesConfig] in Hsave.
  injection Hsave as <- <- <-.
  assert (Hm : built_ins_marked m) by exact (initialize_marked _ _ _ _ Hinit Hmarked).
  pose proof (getTemplate_custom m (id template) Hm Hb) as Hnone.
  repeat split; try reflexivity.
  - unfold getTemplate, getAllTemplates. cbn [builtInTemplates customTemplates with_custom].
    rewrite find_app_none by exact Hnone.
    apply (find_upsert
             {| id := id template; name := name template; type := type template;
                framework := framework template;
                path := Some (relativePath template); content := content template;
                isBuiltIn := Some false; description := description template |}).
  - cbn. apply lookup_insert_eq.
Qed.

(** A save that succeeds can be read back: the template found under the
    identifier is the one returned, with the body as given, not built-in,
    and with the path derived from its type; its body file holds the body
    (the empty string when none was given), and the manifest lists the
    custom templates in memory, without their bodies.  The built-in list is
    not touched. *)
Theorem saved_template_found (template saved : Template) (st : State)
    (d d' : Disk) (m m' : Manager) :
  built_ins_marked (snd st) ->
  initialize st = (Done tt, (d, m)) ->
  saveCustomTemplate template st = (Done saved, (d', m')) ->
  getTemplate m' (id template) = Some saved
  /\ id saved = id template
  /\ content saved = content template
  /\ isBuiltIn saved = Some false
  /\ path saved = Some (relativePath template)
  /\ customFiles d' !! relativePath template
     = Some (default EmptyString (content template))
  /\ customConfig d' = Some (List.map without_content (customTemplates m'))
  /\ builtInTemplates m' = builtInTemplates m.
Proof. exact (saveCustomTemplate_found template saved st d d' m m'). Qed.

Lemma saved_template_found_witness :
  let disk := {| builtInConfig := Some []; builtInFiles := ∅;
                 customConfig := None; customFiles := ∅ |} in
  let template := {| id := "mine"; name := "Mine"; type := CONFIG_FILE;
                     framework := None; path := None; content := None;
                     isBuiltIn := Some true; description := None |} in
  let after := snd (saveCustomTemplate template (disk, new)) in
  built_ins_marked new
  /\ option_map isBuiltIn (getTemplate (snd after) "mine") = Some (Some false)
  /\ customFiles (fst after) !! "config/mine.tpl" = Some EmptyString.
Proof.
  intros disk template after.
  assert (Hnew : built_ins_marked new) by constructor.
  assert (Hinit : initialize (disk, new)
                  = (Done tt, (fst (snd (initialize (disk, new))),
                               snd (snd (initialize (disk, new))))))
    by reflexivity.
  assert (Hsave : saveCustomTemplate template (disk, new)
                  = (Done {| id := "mine"; name := "Mine"; type := CONFIG_FILE;
                             framework := None; path := Some "config/mine.tpl";
                             content := None; isBuiltIn := Some false;
                             description := None |},
                     (fst after, snd after))) by reflexivity.
  destruct (saved_template_found template _ (disk, new) _ _ _ _ Hnew Hinit Hsave)
    as (Hfound & _ & _ & _ & _ & Hfile & _).
  split; [exact Hnew|]. split; [|exact Hfile].
  change (id template) with "mine" in Hfound. now rewrite Hfound.
Defined.

Lemma initialize_initialized (st : State) (d : Disk) (m : Manager) :
  initialize st = (Done tt, (d, m)) -> initialized m = true.
Proof.
  destruct st as [d0 m0]. unfold initialize.
  destruct (initialized m0) eqn:E; [intros [= _ <-]; exact E|].
  destruct (loadBuiltInTemplates (ensureDirectoriesExist d0) m0) as [[[]|msg] m1];
    [|discriminate].
  destruct (loadCustomTemplates (ensureDirectoriesExist d0, m1)) as [[[]|msg] [d2 m2]];
    [|discriminate].
  intros [= _ <-]. reflexivity.
Qed.

Lemma find_filter_other (i : string) (l : list Template) :
  List.find (fun t => String.eqb (id t) i)
    (List.filter (fun t => negb (String.eqb (id t) i)) l) = None.
Proof.
  induction l as [|x l IH]; cbn [List.filter]; [reflexivity|].
  destruct (String.eqb (id x) i) eqn:E; cbn [negb]; [exact IH|].
  cbn [List.find]. now rewrite E.
Qed.

(** Deleting refuses without an error: for the identifier of a built-in
    template (the error thrown inside is swallowed) and for an unknown
    identifier the call returns false and leaves the state as
    initialization left it. *)
Theorem delete_refused (st : State) (d : Disk) (m : Manager) (i : string) :
  built_ins_marked (snd st) ->
  initialize st = (Done tt, (d, m)) ->
  ((exists b, In b (builtInTemplates m) /\ id b = i) \/ getTemplate m i = None) ->
  deleteCustomTemplate i st = (Done false, (d, m)).
Proof.
  intros Hmarked Hinit Hcase. unfold deleteCustomTemplate. rewrite Hinit.
  destruct Hcase as [(b & Hin & <-)|Hnone]; [|now rewrite Hnone].
  destruct (getTemplate_builtIn m b Hin) as (x & Hx & Hix). rewrite Hx.
  assert (Hm : built_ins_marked m) by exact (initialize_marked _ _ _ _ Hinit Hmarked).
  unfold built_ins_marked in Hm. rewrite List.Forall_forall in Hm.
  now rewrite (Hm x Hix).
Qed.

Lemma delete_refused_witness :
  let entry := {| id := "fetch-client"; name := "Fetch client"; type := API_CLIENT;
                  framework := Some "fetch"; path := Some "api-client/fetch-client.tpl";
                  content := None; isBuiltIn := None; description := None |} in
  let disk := {| builtInConfig := Some [entry];
                 builtInFiles := {[ "api-client/fetch-client.tpl" := "export {}" ]};
                 customConfig := Some []; customFiles := ∅ |} in
  let after := snd (initialize (disk, new)) in
  built_ins_marked new
  /\ initialize (disk, new) = (Done tt, after)
  /\ deleteCustomTemplate "fetch-client" (disk, new) = (Done false, after)
  /\ deleteCustomTemplate "unknown" (disk, new) = (Done false, after).
Proof.
  intros entry disk after.
  assert (Hnew : built_ins_marked new) by constructor.
  assert (Hinit : initialize (disk, new) = (Done tt, (fst after, snd after)))
    by reflexivity.
  split; [exact Hnew|]. split; [exact Hinit|]. split.
  - apply (delete_refused (disk, new) (fst after) (snd after) "fetch-client" Hnew Hinit).
    left. eexists. split; [left; reflexivity | reflexivity].
  - apply (delete_refused (disk, new) (fst after) (snd after) "unknown" Hnew Hinit).
    right. reflexivity.
Defined.

Lemma deleteCustomTemplate_gone (st : State) (d d' : Disk) (m m' : Manager)
    (i : string) :
  built_ins_marked (snd st) ->
  initialize st = (Done tt, (d, m)) ->
  deleteCustomTemplate i st = (Done true, (d', m')) ->
  getTemplate m' i = None
  /\ (exists found rel,
        getTemplate m i = Some found /\ path found = Some rel
        /\ customFiles d' !! rel = None)
  /\ customConfig d' = Some (List.map without_content (customTemplates m'))
  /\ builtInTemplates m' = builtInTemplates m.
Proof.
  intros Hmarked Hinit Hdel. unfold deleteCustomTemplate in Hdel. rewrite Hinit in Hdel.
  destruct (getTemplate m i) as [found|] eqn:Hfound; [|discriminate].
  destruct (default false (isBuiltIn found)) eqn:Hb; [discriminate|].
  destruct (path found) as [rel|] eqn:Hrel; [|discriminate].
  destruct (customFiles d !! rel) as [body|]; [|discriminate].
  cbn [updateCustomTemplatesConfig] in Hdel. injection Hdel as <- <-.
  assert (Hm : built_ins_marked m) by exact (initialize_marked _ _ _ _ Hinit Hmarked).
  assert (Hnone : List.find (fun t => String.eqb (id t) i) (builtInTemplates m) = None).
  { apply getTemplate_custom; [exact Hm|]. rewrite Hfound. exact Hb. }
  split; [|split; [|split; reflexivity]].
  - unfold getTemplate, getAllTemplates.
    cbn [builtInTemplates customTemplates with_custom].
    rewrite find_app_none by exact Hnone. apply find_filter_other.
  - exists found, rel. repeat split; auto. cbn. apply lookup_delete_eq.
Qed.

(** A delete that returns true removed the template: no template is found
    under the identifier any more, the body file of the template that was
    found is gone, the manifest lists the custom templates left in memory,
    and the built-in list is as it was. *)
Theorem deleted_template_gone (st : State) (d d' : Disk) (m m' : Manager)
    (i : string) :
  built_ins_marked (snd st) ->
  initialize st = (Done tt, (d, m)) ->
  deleteCustomTemplate i st = (Done true, (d', m')) ->
  getTemplate m' i = None
  /\ (exists found rel,
        getTemplate m i = Some found /\ path found = Some rel
        /\ customFiles d' !! rel = None)
  /\ customConfig d' = Some (List.map without_content (customTemplates m'))
  /\ builtInTemplates m' = builtInTemplates m.
Proof. exact (deleteCustomTemplate_gone st d d' m m' i). Qed.

(** What was saved can be deleted: after a save that succeeded, deleting
    the identifier returns true, and nothing is found under it any more. *)
Theorem save_then_delete (template saved : Template) (st : State)
    (d1 d2 : Disk) (m1 m2 : Manager) (r : outcome bool) :
  built_ins_marked (snd st) ->
  saveCustomTemplate template st = (Done saved, (d1, m1)) ->
  deleteCustomTemplate (id template) (d1, m1) = (r, (d2, m2)) ->
  r = Done true
  /\ getTemplate m2 (id template) = None
  /\ customFiles d2 !! relativePath template = None.
Proof.
  intros Hmarked Hsave Hdel.
  destruct (initialize st) as [[[]|msg] [d m]] eqn:Hinit.
  2:{ unfold saveCustomTemplate in Hsave. rewrite Hinit in Hsave. discriminate. }
  destruct (saveCustomTemplate_found template saved st d d1 m m1 Hmarked Hinit Hsave)
    as (Hfound & _ & _ & Hnot & Hpath & Hfile & _ & Hbuilt).
  assert (Hm : built_ins_marked m) by exact (initialize_marked _ _ _ _ Hinit Hmarked).
  assert (Hm1 : built_ins_marked (snd (d1, m1)))
    by (unfold built_ins_marked; cbn [snd]; now rewrite Hbuilt).
  assert (Hi1 : initialized m1 = true).
  { unfold saveCustomTemplate in Hsave. rewrite Hinit in Hsave.
    destruct (is_builtIn (getTemplate m (id template))); [discriminate|].
    cbn [updateCustomTemplatesConfig] in Hsave. injection Hsave as _ _ <-.
    cbn. exact (initialize_initialized _ _ _ Hinit). }
  assert (Hinit1 : initialize (d1, m1) = (Done tt, (d1, m1)))
    by (now apply initialize_again).
  assert (Hr : r = Done true).
  { unfold deleteCustomTemplate in Hdel. rewrite Hinit1, Hfound, Hnot in Hdel.
    cbn [default from_option id] in Hdel. rewrite Hpath, Hfile in Hdel.
    now injection Hdel as <- _ _. }
  subst r.
  destruct (deleteCustomTemplate_gone (d1, m1) d1 d2 m1 m2 (id template) Hm1 Hinit1 Hdel)
    as (Hgone & (found & rel & Hf & Hrel & Hnofile) & _).
  repeat split; auto.
  rewrite Hfound in Hf. injection Hf as <-. rewrite Hpath in Hrel.
  injection Hrel as <-. exact Hnofile.
Qed.

Lemma save_then_delete_witness :
  let disk := {| builtInConfig := Some []; builtInFiles := ∅;
                 customConfig := None; customFiles := ∅ |} in
  let template := {| id := "mine"; name := "Mine"; type := API_CLIENT;
                     framework := None; path := None; content := Some "body";
                     isBuiltIn := None; description := None |} in
  let saved := snd (saveCustomTemplate template (disk, new)) in
  let deleted := deleteCustomTemplate "mine" saved in
  built_ins_marked new
  /\ customFiles (fst saved) !! "api-client/mine.tpl" = Some "body"
  /\ fst deleted = Done true
  /\ getTemplate (snd (snd deleted)) "mine" = None.
Proof.
  intros disk template saved deleted.
  assert (Hnew : built_ins_marked new) by constructor.
  assert (Hsave : saveCustomTemplate template (disk, new)
                  = (Done {| id := "mine"; name := "Mine"; type := API_CLIENT;
                             framework := None; path := Some "api-client/mine.tpl";
                             content := Some "body"; isBuiltIn := Some false;
                             description := None |},
                     (fst saved, snd saved))) by reflexivity.
  assert (Hdel : deleteCustomTemplate (id template) (fst saved, snd saved)
                 = (fst deleted, (fst (snd deleted), snd (snd deleted))))
    by reflexivity.
  destruct (save_then_delete template _ (disk, new) _ _ _ _ _ Hnew Hsave Hdel)
    as (Hr & Hgone & _).
  split; [exact Hnew|]. split; [reflexivity|]. split; [exact Hr | exact Hgone].
Defined.

Lemma deleted_template_gone_witness :
  let entry := {| id := "mine"; name := "Mine"; type := API_CLIENT;
                  framework := None; path := Some "api-client/mine.tpl";
                  content := None; isBuiltIn := Some false; description := None |} in
  let disk := {| builtInConfig := Some []; builtInFiles := ∅;
                 customConfig := Some [entry];
                 customFiles := {[ "api-client/mine.tpl" := "body" ]} |} in
  let after := snd (deleteCustomTemplate "mine" (disk, new)) in
  built_ins_marked new
  /\ fst (deleteCustomTemplate "mine" (disk, new)) = Done true
  /\ getTemplate (snd after) "mine" = None
  /\ customConfig (fst after) = Some [].
Proof.
  intros entry disk after.
  assert (Hnew : built_ins_marked new) by constructor.
  assert (Hinit : initialize (disk, new)
                  = (Done tt, (fst (snd (initialize (disk, new))),
                               snd (snd (initialize (disk, new))))))
    by reflexivity.
  assert (Hdel : deleteCustomTemplate "mine" (disk, new)
                 = (Done true, (fst after, snd after))) by reflexivity.
  destruct (deleted_template_gone (disk, new) _ _ _ _ "mine" Hnew Hinit Hdel)
    as (Hgone & _ & _ & _).
  split; [exact Hnew|]. split; [reflexivity|]. split; [exact Hgone | reflexivity].
Defined.

(** *** Identifiers of the custom templates *)

Lemma upsert_ids (t : Template) (l : list Template) (i : string) :
  In i (List.map id (upsert t l)) -> i = id t \/ In i (List.map id l).
Proof.
  induction l as [|x l IH]; cbn [upsert List.map].
  - intros [<-|[]]. now left.
  - destruct (String.eqb_spec (id x) (id t)) as [E|E]; cbn [List.map].
    + intros [<-|Hin]; [now left | right; now right].
    + intros [<-|Hin]; [right; now left|].
      destruct (IH Hin) as [->|Hl]; [now left | right; now right].
Qed.

Lemma upsert_NoDup (t : Template) (l : list Template) :
  List.NoDup (List.map id l) -> List.NoDup (List.map id (upsert t l)).
Proof.
  induction l as [|x l IH]; cbn [upsert List.map]; intros Hnd.
  - constructor; [intros [] | constructor].
  - inversion Hnd as [|? ? Hnotin Hnd']; subst.
    destruct (String.eqb_spec (id x) (id t)) as [E|E]; cbn [List.map].
    + rewrite <- E. now constructor.
    + constructor; [|now apply IH].
      intros Hin. destruct (upsert_ids t l (id x) Hin) as [Heq|Hl]; congruence.
Qed.

Lemma filter_NoDup (f : Template -> bool) (l : list Template) :
  List.NoDup (List.map id l) -> List.NoDup (List.map id (List.filter f l)).
Proof.
  induction l as [|x l IH]; cbn [List.filter List.map]; intros Hnd; [constructor|].
  inversion Hnd as [|? ? Hnotin Hnd']; subst.
  destruct (f x); cbn [List.map]; [|now apply IH].
  constructor; [|now apply IH].
  intros Hin. apply Hnotin. apply in_map_iff in Hin as (y & Hy & Hin).
  apply filter_In in Hin as [Hin _]. apply in_map_iff. eauto.
Qed.

(** Saving and deleting keep the identifiers of the custom templates
    distinct: a save under an identifier that is already there replaces
    that template in place, and adds none. *)
Theorem custom_identifiers_stay_distinct (template : Template) (i : string)
    (st : State) (d : Disk) (m : Manager) :
  initialize st = (Done tt, (d, m)) ->
  List.NoDup (List.map id (customTemplates m)) ->
  List.NoDup (List.map id (customTemplates (snd (snd (saveCustomTemplate template st)))))
  /\ List.NoDup (List.map id (customTemplates (snd (snd (deleteCustomTemplate i st)))))
  /\ (In (id template) (List.map id (customTemplates m)) ->
      List.length (customTemplates (snd (snd (saveCustomTemplate template st))))
      = List.length (customTemplates m)).
Proof.
  intros Hinit Hnd. split; [|split].
  - unfold saveCustomTemplate. rewrite Hinit.
    destruct (is_builtIn (getTemplate m (id template))); [exact Hnd|].
    cbn. now apply (upsert_NoDup
                      {| id := id template; name := name template;
                         type := type template; framework := framework template;
                         path := Some (relativePath template);
                         content := content template; isBuiltIn := Some false;
                         description := description template |}).
  - unfold deleteCustomTemplate. rewrite Hinit.
    destruct (getTemplate m i) as [found|]; [|exact Hnd].
    destruct (default false (isBuiltIn found)); [exact Hnd|].
    destruct (path found) as [rel|]; [|exact Hnd].
    destruct (customFiles d !! rel); [|exact Hnd].
    cbn. now apply filter_NoDup.
  - intros Hin. unfold saveCustomTemplate. rewrite Hinit.
    destruct (is_builtIn (getTemplate m (id template))); [reflexivity|].
    cbn. clear Hnd Hinit.
    set (t := {| id := id template; name := name template;
                 type := type template; framework := framework template;
                 path := Some (relativePath template);
                 content := content template; isBuiltIn := Some false;
                 description := description template |}).
    change (id template) with (id t) in Hin.
    induction (customTemplates m) as [|x l IH]; [destruct Hin|].
    cbn [upsert]. destruct (String.eqb_spec (id x) (id t)) as [E|E]; [reflexivity|].
    cbn [List.length]. f_equal. apply IH.
    destruct Hin as [Hx|Hin]; [congruence | exact Hin].
Qed.

Lemma custom_identifiers_stay_distinct_witness :
  let entry := {| id := "mine"; name := "Mine"; type := API_CLIENT;
                  framework := None; path := Some "api-client/mine.tpl";
                  content := None; isBuiltIn := Some false; description := None |} in
  let disk := {| builtInConfig := Some []; builtInFiles := ∅;
                 customConfig := Some [entry];
                 customFiles := {[ "api-client/mine.tpl" := "body" ]} |} in
  let template := {| id := "mine"; name := "Mine 2"; type := API_CLIENT;
                     framework := None; path := None; content := Some "new body";
                     isBuiltIn := None; description := None |} in
  let loaded := snd (snd (initialize (disk, new))) in
  List.NoDup (List.map id (customTemplates loaded))
  /\ List.length (customTemplates (snd (snd (saveCustomTemplate template (disk, new)))))
     = 1%nat.
Proof.
  intros entry disk template loaded.
  assert (Hinit : initialize (disk, new)
                  = (Done tt, (fst (snd (initialize (disk, new))), loaded)))
    by reflexivity.
  assert (Hnd : List.NoDup (List.map id (customTemplates loaded)))
    by (cbn; constructor; [intros [] | constructor]).
  split; [exact Hnd|].
  rewrite (proj2 (proj2 (custom_identifiers_stay_distinct template "mine"
                           (disk, new) _ loaded Hinit Hnd))).
  - reflexivity.
  - left. reflexivity.
Defined.

(** *** A saved template after a restart *)

Lemma load_builtIn_same_files (d d' : Disk) (entries : list Template) (m : Manager) :
  builtInFiles d = builtInFiles d' ->
  load_builtIn d entries m = load_builtIn d' entries m.
Proof.
  intros Hfiles. revert m. induction entries as [|t rest IH]; intros m; [reflexivity|].
  cbn [load_builtIn]. rewrite Hfiles.
  destruct (path t) as [rel|]; [|reflexivity].
  destruct (builtInFiles d' !! rel); [apply IH | reflexivity].
Qed.

Lemma load_custom_keeps_found (d : Disk) (entries : list Template) (m m' : Manager)
    (r : outcome unit) (i : string) (x : Template) :
  load_custom d entries m = (r, m') ->
  List.find (fun t => String.eqb (id t) i) (customTemplates m) = Some x ->
  List.find (fun t => String.eqb (id t) i) (customTemplates m') = Some x.
Proof.
  revert m. induction entries as [|t rest IH]; intros m Hload Hfound.
  - cbn in Hload. now injection Hload as _ <-.
  - cbn [load_custom] in Hload.
    destruct (path t) as [rel|]; [|now injection Hload as _ <-].
    destruct (customFiles d !! rel) as [body|]; [|now apply (IH m)].
    apply (IH _ Hload). cbn. now apply find_app_some.
Qed.

(** The first manifest entry with a given identifier, when its body file is
    there, is what a load that succeeds finds under that identifier. *)
Lemma load_custom_finds (d : Disk) (before after : list Template) (e : Template)
    (m m' : Manager) (rel body : string) :
  load_custom d (before ++ e :: after)%list m = (Done tt, m') ->
  List.find (fun t => String.eqb (id t) (id e)) (customTemplates m) = None ->
  (forall x, In x before -> id x <> id e) ->
  path e = Some rel ->
  customFiles d !! rel = Some body ->
  List.find (fun t => String.eqb (id t) (id e)) (customTemplates m')
  = Some (set_content (Some body) (Some false) e).
Proof.
  revert m. induction before as [|x before IH]; intros m Hload Hnone Hids Hrel Hbody.
  - cbn [app load_custom] in Hload. rewrite Hrel, Hbody in Hload.
    apply (load_custom_keeps_found _ _ _ _ _ _ _ Hload).
    cbn. rewrite find_app_none by exact Hnone.
    cbn. now rewrite String.eqb_refl.
  - cbn [app load_custom] in Hload.
    assert (Hx : id x <> id e) by (apply Hids; now left).
    assert (Hrest : forall y, In y before -> id y <> id e)
      by (intros y Hy; apply Hids; now right).
    destruct (path x) as [relx|]; [|discriminate].
    destruct (customFiles d !! relx) as [bodyx|]; [|now apply (IH m)].
    apply (IH _ Hload); try assumption.
    cbn. rewrite find_app_none by exact Hnone.
    cbn. destruct (String.eqb_spec (id x) (id e)); [contradiction | reflexivity].
Qed.

Lemma upsert_split (t : Template) (l : list Template) :
  exists before after,
    upsert t l = (before ++ t :: after)%list
    /\ forall x, In x before -> id x <> id t.
Proof.
  induction l as [|x l IH]; cbn [upsert].
  - exists [], []. split; [reflexivity | intros x []].
  - destruct (String.eqb_spec (id x) (id t)) as [E|E].
    + exists [], l. split; [reflexivity | intros y []].
    + destruct IH as (before & after & -> & Hids).
      exists (x :: before), after. split; [reflexivity|].
      intros y [<-|Hy]; [exact E | now apply Hids].
Qed.

(** A template saved by a manager is found again by the next one: a new
    manager initialized from the disk the save left finds, under the
    identifier, a custom template with the saved name, type and path, whose
    body is what the save wrote to the body file. *)
Theorem saved_template_reloaded (template saved : Template)
    (disk d1 d2 : Disk) (m1 m2 : Manager) :
  saveCustomTemplate template (disk, new) = (Done saved, (d1, m1)) ->
  initialize (d1, new) = (Done tt, (d2, m2)) ->
  exists found,
    getTemplate m2 (id template) = Some found
    /\ content found = Some (default EmptyString (content template))
    /\ isBuiltIn found = Some false
    /\ name found = name template
    /\ type found = type template
    /\ path found = Some (relativePath template).
Proof.
  intros Hsave Hinit.
  assert (Hnew : built_ins_marked (snd (disk, new))) by constructor.
  destruct (initialize (disk, new)) as [[[]|msg] [d m]] eqn:Hfirst.
  2:{ unfold saveCustomTemplate in Hsave. rewrite Hfirst in Hsave. discriminate. }
  assert (Hm : built_ins_marked m) by exact (initialize_marked _ _ _ _ Hfirst Hnew).
  unfold saveCustomTemplate in Hsave. rewrite Hfirst in Hsave.
  destruct (is_builtIn (getTemplate m (id template))) eqn:Hb; [discriminate|].
  pose proof (getTemplate_custom m (id template) Hm Hb) as Hnone.
  cbn [updateCustomTemplatesConfig] in Hsave.
  set (t := {| id := id template; name := name template; type := type template;
               framework := framework template; path := Some (relativePath template);
               content := content template; isBuiltIn := Some false;
               description := description template |}) in *.
  injection Hsave as _ <- _.
  (* the first initialization, unfolded *)
  unfold initialize in Hfirst. cbn [initialized new] in Hfirst.
  unfold loadBuiltInTemplates in Hfirst.
  destruct (builtInConfig (ensureDirectoriesExist disk)) as [entries|] eqn:Hcfg;
    [|discriminate].
  destruct (load_builtIn (ensureDirectoriesExist disk) entries new)
    as [[[]|msg] mb] eqn:Hbuilt; [|discriminate].
  destruct (load_builtIn_marked _ _ _ _ _ Hbuilt Hnew) as (_ & Hbc & _).
  unfold loadCustomTemplates in Hfirst.
  assert (Hd : d = ensureDirectoriesExist disk /\ builtInTemplates m = builtInTemplates mb).
  { destruct (customConfig (ensureDirectoriesExist disk)) as [custom|] eqn:Hcc.
    - destruct (load_custom (ensureDirectoriesExist disk) custom mb)
        as [[[]|msg] mc] eqn:Hcustom; [|discriminate].
      injection Hfirst as <- <-. split; [reflexivity|]. cbn.
      exact (proj1 (load_custom_builtIn _ _ _ _ _ Hcustom)).
    - exfalso. unfold ensureDirectoriesExist in Hcc.
      destruct (customConfig disk) eqn:E; cbn in Hcc; congruence. }
  destruct Hd as [Hd Hbm]. clear Hfirst.
  (* the second one *)
  unfold initialize in Hinit. cbn [initialized new] in Hinit.
  unfold ensureDirectoriesExist at 1 2 in Hinit.
  cbn [customConfig with_customConfig with_customFiles] in Hinit.
  unfold loadBuiltInTemplates in Hinit.
  cbn [builtInConfig with_customConfig with_customFiles] in Hinit.
  rewrite Hd, Hcfg in Hinit.
  rewrite (load_builtIn_same_files _ (ensureDirectoriesExist disk)) in Hinit
    by reflexivity.
  rewrite Hbuilt in Hinit.
  unfold loadCustomTemplates in Hinit.
  cbn [customConfig with_customConfig with_customFiles] in Hinit.
  match type of Hinit with
  | context [load_custom ?dd ?es mb] =>
      destruct (load_custom dd es mb) as [[[]|msg] mc] eqn:Hcustom; [|discriminate]
  end.
  injection Hinit as _ <-.
  destruct (upsert_split t (customTemplates m)) as (before & after & Hsplit & Hids).
  cbn [customTemplates with_custom] in Hcustom.
  rewrite Hsplit, map_app in Hcustom. cbn [List.map] in Hcustom.
  assert (Hfound := load_custom_finds _ _ _ (without_content t) mb mc
                      (relativePath template)
                      (default EmptyString (content template)) Hcustom).
  cbn [id without_content] in Hfound.
  destruct (load_custom_builtIn _ _ _ _ _ Hcustom) as [Hbc' _].
  eexists. split.
  - unfold getTemplate, getAllTemplates. cbn [builtInTemplates customTemplates with_initialized].
    rewrite Hbc', <- Hbm, find_app_none by exact Hnone.
    apply Hfound.
    + rewrite Hbc. reflexivity.
    + intros x Hx. apply in_map_iff in Hx as (y & <- & Hy). cbn. now apply Hids.
    + reflexivity.
    + cbn. apply lookup_insert_eq.
  - repeat split.
Qed.

Lemma saved_template_reloaded_witness :
  let disk := {| builtInConfig := Some []; builtInFiles := ∅;
                 customConfig := None; customFiles := ∅ |} in
  let template := {| id := "mine"; name := "Mine"; type := TYPESCRIPT_TYPES;
                     framework := None; path := None; content := Some "body";
                     isBuiltIn := None; description := None |} in
  let saved := snd (saveCustomTemplate template (disk, new)) in
  let restarted := snd (snd (initialize (fst saved, new))) in
  fst (initialize (fst saved, new)) = Done tt
  /\ exists found,
       getTemplate restarted "mine" = Some found
       /\ content found = Some "body"
       /\ path found = Some "typescript-types/mine.tpl".
Proof.
  intros disk template saved restarted.
  assert (Hsave : saveCustomTemplate template (disk, new)
                  = (Done {| id := "mine"; name := "Mine"; type := TYPESCRIPT_TYPES;
                             framework := None;
                             path := Some "typescript-types/mine.tpl";
                             content := Some "body"; isBuiltIn := Some false;
                             description := None |},
                     (fst saved, snd saved))) by reflexivity.
  assert (Hinit : initialize (fst saved, new)
                  = (Done tt, (fst (snd (initialize (fst saved, new))), restarted)))
    by reflexivity.
  split; [reflexivity|].
  destruct (saved_template_reloaded template _ disk _ _ _ _ Hsave Hinit)
    as (found & Hfound & Hcontent & _ & _ & _ & Hpath).
  exists found. split; [exact Hfound|]. split; [exact Hcontent | exact Hpath].
Defined.
